(** * tox: run scheduler, local sub-process execution, spinner

    A shallow embedding of the parts of tox that drive a run:

    - [Api]             : [tox/execute/api.py] (the [Outcome] record);
    - [Common]          : [tox/session/cmd/run/common.py] ([report],
                          [run_order], [ready_to_run_envs], [_queue_and_wait]);
    - [LocalSubProcess] : [tox/execute/local_sub_process/__init__.py]
                          ([cmd], [__enter__], [interrupt]);
    - [Spinner]         : [tox/util/spinner.py] ([add], [frame], [finalize]).

    Python [int] is [Z]; [Optional[int]] is [option Z]; [dict] is a [gmap]
    where only lookups matter and an association list where the insertion
    order is observable; [set] is a [gset]; seconds are rationals ([Q]). *)

From Stdlib Require Import ZArith QArith List String Ascii Lia.
From stdpp Require Import base gmap strings list pretty.

Local Open Scope Z_scope.

(** Exceptions that the modelled code lets escape. *)
Inductive exn :=
| KeyError
| IndexError
| AttributeError (attr : string)
| ValueError
| TypeError
| TimeoutExpired
| UnboundLocalError
| Skip.

(** A call that may raise. *)
Inductive res (A : Type) :=
| Ok (a : A)
| Raise (e : exn).
Arguments Ok {A} a.
Arguments Raise {A} e.

(** Both [KeyError] and [IndexError] derive from [LookupError]. *)
Definition is_LookupError (e : exn) : bool :=
  match e with
  | KeyError | IndexError => true
  | AttributeError _ | ValueError | TypeError | TimeoutExpired
  | UnboundLocalError | Skip => false
  end.

(** ** Insertion-ordered dictionaries

    A Python [dict] keeps its keys in insertion order, and both
    [" | ".join(self._envs)] and the tie-break of the topological sort
    observe that order: such dictionaries are association lists with
    unique keys. *)
Section Dict.
Context {K V : Type} `{EqDecision K}.

Definition dict := list (K * V).

(** [d[k]]; [None] stands for the [KeyError]. *)
Fixpoint dict_get (k : K) (d : dict) : option V :=
  match d with
  | [] => None
  | (k', v) :: d' => if decide (k = k') then Some v else dict_get k d'
  end.

(** [d[k] = v]: an existing key keeps its position. *)
Fixpoint dict_set (k : K) (v : V) (d : dict) : dict :=
  match d with
  | [] => [(k, v)]
  | (k', v') :: d' =>
      if decide (k = k') then (k, v) :: d' else (k', v') :: dict_set k v d'
  end.

(** [del d[k]] for a key that is present. *)
Fixpoint dict_del (k : K) (d : dict) : dict :=
  match d with
  | [] => []
  | (k', v) :: d' =>
      if decide (k = k') then d' else (k', v) :: dict_del k d'
  end.

(** Iterating a dictionary yields its keys in insertion order. *)
Definition dict_keys (d : dict) : list K := map fst d.

End Dict.
Arguments dict : clear implicits.

(* ================================================================== *)
(** * tox/execute/api.py *)
(* ================================================================== *)
Module Api.

Inductive StdinSource := OFF | USER | API.

(** [ExecuteRequest] (tox/execute/request.py): the fields read here. *)
Record ExecuteRequest := {
  cmd : list string;
  cwd : string;
  env : gmap string string;
  stdin : StdinSource
}.

Record Outcome := {
  request : ExecuteRequest;
  show_on_standard : bool;
  exit_code : option Z;
  out : string;
  err : string;
  start : Q;
  end_ : Q;
  resolved_cmd : list string  (* the attribute [cmd] *)
}.

(** [Outcome.OK = 0] *)
Definition OK : Z := 0.

(** [self.exit_code == self.OK]; [None == 0] is [False]. *)
Definition py_eq_opt (a : option Z) (b : Z) : bool :=
  match a with
  | Some x => Z.eqb x b
  | None => false
  end.

(** [Outcome.__bool__] *)
Definition bool_ (o : Outcome) : bool := py_eq_opt (exit_code o) OK.

(** [Outcome.elapsed] *)
Definition elapsed (o : Outcome) : Q := (end_ o - start o)%Q.

End Api.

(* ================================================================== *)
(** * tox/session/cmd/run/common.py: the final report *)
(* ================================================================== *)
Module Common.

(** [ToxEnvRunResult] (tox/session/cmd/run/single.py). *)
Record ToxEnvRunResult := {
  name : string;
  skipped : bool;
  code : Z;
  outcomes : list Api.Outcome;
  duration : Q
}.

(** colorama's [Fore] colours used by [report]. *)
Inductive Fore := GREEN | YELLOW | RED.

(** One call of the local [_print(color, message)].  The seconds that
    [report] appends to each message are formatted floats and are left
    out of [message]; nothing below depends on them. *)
Record Printed := { color : Fore; message : string }.

(** [ok = run.code == Outcome.OK] *)
Definition run_ok (run : ToxEnvRunResult) : bool :=
  Z.eqb (code run) Api.OK.

(** [msg = ("SKIP" if run.skipped else "OK") if ok else f"FAIL code {run.code}"] *)
Definition run_msg (run : ToxEnvRunResult) : string :=
  if run_ok run then (if skipped run then "SKIP" else "OK")
  else "FAIL code " +:+ pretty (code run).

(** [(Fore.YELLOW if run.skipped else Fore.GREEN) if ok else Fore.RED] *)
Definition run_color (run : ToxEnvRunResult) : Fore :=
  if run_ok run then (if skipped run then YELLOW else GREEN) else RED.

(** The body of [for run in runs], threading [all_ok] and what was
    printed so far. *)
Definition report_loop (runs : list ToxEnvRunResult)
  : bool * list Printed :=
  fold_left
    (fun (acc : bool * list Printed) run =>
       let '(all_ok, printed) := acc in
       let ok := run_ok run in
       let line :=
         {| color := run_color run;
            message := "  " +:+ name run +:+ ": " +:+ run_msg run |} in
       (ok && all_ok, printed ++ [line]))
    runs (true, []).

(** [report(start, runs, is_colored)]: what is printed and the exit
    code returned.  In the failing branch the source returns
    [runs[0].code if len(runs) == 1 else -1]. *)
Definition report (runs : list ToxEnvRunResult) : list Printed * Z :=
  let '(all_ok, printed) := report_loop runs in
  if all_ok then
    (printed ++ [{| color := GREEN; message := "  congratulations :)" |}],
     Api.OK)
  else
    (printed ++ [{| color := RED; message := "  evaluation failed :(" |}],
     if (length runs =? 1)%nat
     then match runs with run0 :: _ => code run0 | [] => -1 end
     else -1).

(** ** Scheduling: [run_order] and [ready_to_run_envs] *)

(** [State] (tox/session/state.py) as [run_order] reads it:
    [state.tox_env(env)] raises [Skip] ([None]) or gives the
    environment, of which [conf["depends"].envs] is read. *)
Record State := { tox_env : string -> option (list string) }.

Section Scheduler.
(** [tox.util.graph.stable_topological_sort] is imported, not defined
    here: it maps the graph to an order or raises. *)
Variable stable_topological_sort :
  dict string (gset string) -> res (list string).
Variable state : State.

(** The loop of [run_order]: [todo[env] = to_run_set & depends],
    skipping the environments whose construction raises [Skip]. *)
Definition build_todo (to_run : list string) : dict string (gset string) :=
  let to_run_set : gset string := list_to_set to_run in
  fold_left
    (fun todo env =>
       match tox_env state env with
       | None => todo
       | Some depends =>
           dict_set env (to_run_set ∩ list_to_set depends) todo
       end)
    to_run [].

(** [run_order(state, to_run)] *)
Definition run_order (to_run : list string)
  : res (list string * dict string (gset string)) :=
  let todo := build_todo to_run in
  match stable_topological_sort todo with
  | Ok order => Ok (order, todo)
  | Raise e => Raise e
  end.

(** The inner [for env in order] of [ready_to_run_envs]:
    [if todo[env] - completed] keeps [env] for later, otherwise it
    is ready.  Returns [(ready_to_run, new_order)]. *)
Fixpoint collect_batch (todo : dict string (gset string))
         (completed : gset string) (order ready_to_run new_order : list string)
  : res (list string * list string) :=
  match order with
  | [] => Ok (ready_to_run, new_order)
  | env :: order' =>
      match dict_get env todo with
      | None => Raise KeyError
      | Some depends =>
          if bool_decide (depends ∖ completed = ∅)
          then collect_batch todo completed order'
                             (ready_to_run ++ [env]) new_order
          else collect_batch todo completed order'
                             ready_to_run (new_order ++ [env])
      end
  end.

(** The generator object returned by [ready_to_run_envs]: its body
    does not run before the first [next]. *)
Inductive Generator :=
| Created (to_run : list string)
| Suspended (order : list string) (todo : dict string (gset string))
| Exhausted.

(** What one [next(generator)] produces. *)
Inductive Next :=
| Yield (ready_to_run : list string)
| StopIteration
| Raised (e : exn).

(** From [while order:] to the next [yield].  (The counter [at] of the
    source is incremented and never read.) *)
Definition resume (todo : dict string (gset string))
           (completed : gset string) (order : list string)
  : Next * Generator :=
  match order with
  | [] => (StopIteration, Exhausted)
  | _ :: _ =>
      match collect_batch todo completed order [] [] with
      | Ok (ready_to_run, new_order) =>
          (Yield ready_to_run, Suspended new_order todo)
      | Raise e => (Raised e, Exhausted)
      end
  end.

(** [next(envs_to_run_generator)] with the live [completed] set. *)
Definition next (completed : gset string) (g : Generator)
  : Next * Generator :=
  match g with
  | Created to_run =>
      match run_order to_run with
      | Ok (order, todo) => resume todo completed order
      | Raise e => (Raised e, Exhausted)
      end
  | Suspended order todo => resume todo completed order
  | Exhausted => (StopIteration, Exhausted)
  end.

(** The batch as the specification words it: advance through the
    order, consuming environments until one whose dependencies are
    not yet complete is met; the consumed ones are the batch. *)
Fixpoint batch_until_blocked (todo : dict string (gset string))
         (completed : gset string) (order : list string) : list string :=
  match order with
  | [] => []
  | env :: order' =>
      match dict_get env todo with
      | Some depends =>
          if bool_decide (depends ∖ completed = ∅)
          then env :: batch_until_blocked todo completed order'
          else []
      | None => []
      end
  end.

End Scheduler.

(** ** The driver loop: [_queue_and_wait] *)

(** A [concurrent.futures.Future] held in [future_to_env]. *)
Inductive Future :=
| Pending                               (* queued in the pool *)
| Running                               (* a pool worker executes [_run] *)
| Finished (result : ToxEnvRunResult)   (* [set_result] was called *)
| Failed (e : exn)                      (* [_run] raised *)
| Cancelled.                            (* [cancel()] succeeded *)

(** Where the driver thread stands in its [while True] loop. *)
Inductive Phase :=
| Queueing (env_list : list string)     (* in [for env in env_list] *)
| Waiting                               (* at [if not future_to_env] *)
| Pulling (result : option ToxEnvRunResult) (* at [next(generator, [])] *)
| Stopped                               (* after [break] *)
| Crashed (e : exn).                    (* an exception escaped *)

(** Calls the driver makes on its collaborators, in order. *)
Inductive Event :=
| Submit (env : string)                 (* [executor.submit(_run, tox_env)] *)
| Teardown (env : string)               (* [tox_env.teardown()] *)
| HandleDone (result : ToxEnvRunResult).  (* [_handle_one_run_done] *)

Record Driver := {
  phase : Phase;
  generator : Generator;
  completed : gset string;
  future_to_env : list (Future * string);
  results : list ToxEnvRunResult;
  interrupt : bool;                      (* [interrupt.is_set()] *)
  max_workers : nat;
  events : list Event
}.

(** What happens next: a move of the driver thread, or of the main
    thread and the pool that run beside it. *)
Inductive Action :=
| Drive                                  (* the driver's next statement *)
| Complete (i : nat)       (* [next(as_completed(..))] yields future [i] *)
| SetInterrupt                           (* main thread: [interrupt.set()] *)
| Cancel (i : nat)                       (* main thread: [future.cancel()] *)
| Start (i : nat)                        (* pool: a worker takes future [i] *)
| Finish (i : nat) (result : ToxEnvRunResult)  (* pool: [_run] returns *)
| Fail (i : nat) (e : exn).                    (* pool: [_run] raises *)

Definition is_running (f : Future * string) : bool :=
  match fst f with Running => true | _ => false end.

Section DriverLoop.
Variable stable_topological_sort :
  dict string (gset string) -> res (list string).
Variable state : State.
(** [MISS_DURATION] is imported from [tox.util.spinner]. *)
Variable MISS_DURATION : Q.

(** The driver before its first loop iteration:
    [completed = set()], [env_list = []], nothing queued.
    [ThreadPoolExecutor] refuses a pool without workers with a
    [ValueError]; [executor] is then unbound when the [finally] clause
    calls [executor.shutdown], and it is that [UnboundLocalError] that
    leaves [_queue_and_wait]. *)
Definition start (to_run_list : list string) (max_workers : option nat)
  : Driver :=
  let workers := default (length to_run_list) max_workers in
  {| phase := if (workers =? 0)%nat then Crashed UnboundLocalError
              else Queueing [];
     generator := Created to_run_list;
     completed := ∅;
     future_to_env := [];
     results := [];
     interrupt := false;
     max_workers := workers;
     events := [] |}.

(** The result made up for an environment that is not run. *)
Definition missed (env : string) (code : Z) : ToxEnvRunResult :=
  {| name := env; skipped := false; code := code; outcomes := [];
     duration := MISS_DURATION |}.

(** One iteration of [for env in env_list].  The test of the interrupt
    flag and the submission that follows it are a single move here: a
    flag that the main thread sets between the two is not represented,
    so the moves tell nothing about what is submitted once the flag is
    set. *)
Definition queue (d : Driver) (env : string) (rest : list string)
  : Driver :=
  match tox_env state env with
  | None => {| phase := Crashed Skip; generator := generator d;
               completed := completed d;
               future_to_env := future_to_env d; results := results d;
               interrupt := interrupt d; max_workers := max_workers d;
               events := events d |}
  | Some _ =>
      if interrupt d then
        {| phase := Queueing rest; generator := generator d;
           completed := completed d;
           future_to_env :=
             future_to_env d ++ [(Finished (missed env (-2)), env)];
           results := results d;
           interrupt := interrupt d; max_workers := max_workers d;
           events := events d ++ [Teardown env] |}
      else
        {| phase := Queueing rest; generator := generator d;
           completed := completed d;
           future_to_env := future_to_env d ++ [(Pending, env)];
           results := results d;
           interrupt := interrupt d; max_workers := max_workers d;
           events := events d ++ [Submit env] |}
  end.

(** [results.append(result); completed.add(result.name)] after future
    [i] was popped from [future_to_env]. *)
Definition collect (d : Driver) (i : nat) (result : ToxEnvRunResult)
           (new_events : list Event) : Driver :=
  {| phase := Pulling (Some result); generator := generator d;
     completed := completed d ∪ {[ name result ]};
     future_to_env := delete i (future_to_env d);
     results := results d ++ [result];
     interrupt := interrupt d; max_workers := max_workers d;
     events := events d ++ new_events |}.

(** From [env_list = next(envs_to_run_generator, [])] to the end of
    the loop body. *)
Definition pull (d : Driver) (result : option ToxEnvRunResult) : Driver :=
  let '(produced, generator') := next stable_topological_sort state
                                      (completed d) (generator d) in
  let handled :=
    match result with
    | Some r => [HandleDone r]
    | None => []
    end in
  match produced with
  | Raised e =>
      {| phase := Crashed e; generator := generator';
         completed := completed d; future_to_env := future_to_env d;
         results := results d; interrupt := interrupt d;
         max_workers := max_workers d; events := events d |}
  | _ =>
      let env_list :=
        match produced with Yield batch => batch | _ => [] end in
      let final_run :=
        match env_list, future_to_env d with
        | [], [] => true
        | _, _ => false
        end in
      {| phase := if final_run then Stopped else Queueing env_list;
         generator := generator';
         completed := completed d; future_to_env := future_to_env d;
         results := results d; interrupt := interrupt d;
         max_workers := max_workers d;
         events := events d ++ handled |}
  end.

Definition set_future (d : Driver) (i : nat) (f : Future) (env : string)
  : Driver :=
  {| phase := phase d; generator := generator d;
     completed := completed d;
     future_to_env := <[ i := (f, env) ]> (future_to_env d);
     results := results d; interrupt := interrupt d;
     max_workers := max_workers d; events := events d |}.

(** One move; [None] when the move is not possible in [d]. *)
Definition step (d : Driver) (a : Action) : option Driver :=
  match a, phase d with
  | Drive, Queueing (env :: rest) => Some (queue d env rest)
  | Drive, Queueing [] =>
      Some {| phase := Waiting; generator := generator d;
              completed := completed d;
              future_to_env := future_to_env d; results := results d;
              interrupt := interrupt d; max_workers := max_workers d;
              events := events d |}
  | Drive, Waiting =>
      match future_to_env d with
      | [] => Some {| phase := Pulling None; generator := generator d;
                      completed := completed d;
                      future_to_env := future_to_env d;
                      results := results d;
                      interrupt := interrupt d;
                      max_workers := max_workers d;
                      events := events d |}
      | _ :: _ => None      (* blocks on [as_completed] *)
      end
  | Complete i, Waiting =>
      match future_to_env d !! i with
      | Some (Finished result, _) => Some (collect d i result [])
      | Some (Cancelled, tox_env_done) =>
          Some (collect d i (missed tox_env_done (-3))
                        [Teardown tox_env_done])
      | Some (Failed e, _) =>         (* [future.result()] raises again *)
          Some {| phase := Crashed e; generator := generator d;
                  completed := completed d;
                  future_to_env := delete i (future_to_env d);
                  results := results d; interrupt := interrupt d;
                  max_workers := max_workers d; events := events d |}
      | _ => None
      end
  | Drive, Pulling result => Some (pull d result)
  | SetInterrupt, _ =>
      Some {| phase := phase d; generator := generator d;
              completed := completed d;
              future_to_env := future_to_env d; results := results d;
              interrupt := true; max_workers := max_workers d;
              events := events d |}
  | Cancel i, _ =>
      match interrupt d, future_to_env d !! i with
      | true, Some (Pending, env) => Some (set_future d i Cancelled env)
      | _, _ => None
      end
  | Start i, _ =>
      match future_to_env d !! i with
      | Some (Pending, env) =>
          if (length (filter is_running (future_to_env d))
              <? max_workers d)%nat
          then Some (set_future d i Running env)
          else None
      | _ => None
      end
  | Finish i result, _ =>
      match future_to_env d !! i with
      | Some (Running, env) => Some (set_future d i (Finished result) env)
      | _ => None
      end
  | Fail i e, _ =>
      match future_to_env d !! i with
      | Some (Running, env) => Some (set_future d i (Failed e) env)
      | _ => None
      end
  | _, _ => None
  end.

(** Running a schedule of moves. *)
Fixpoint run (d : Driver) (schedule : list Action) : option Driver :=
  match schedule with
  | [] => Some d
  | a :: schedule' =>
      match step d a with
      | Some d' => run d' schedule'
      | None => None
      end
  end.

(** The states the driver can be in during a run over [to_run_list]. *)
Inductive reachable (to_run_list : list string) (workers : option nat)
  : Driver -> Prop :=
| reachable_start : reachable to_run_list workers
                              (start to_run_list workers)
| reachable_step d a d' :
    reachable to_run_list workers d ->
    step d a = Some d' ->
    reachable to_run_list workers d'.

End DriverLoop.

(** ** The topological order

    Modelled from the spec: [tox.util.graph.stable_topological_sort] is
    not part of the sources at hand.  The specification asks for a
    stable topological order of the induced graph in which dependencies
    come before their dependents, ties broken by input order, and for a
    fatal error when a cycle prevents ordering.  Edges to names that
    are no key of the graph are dropped. *)
Definition placeable (graph : dict string (gset string))
           (placed : list string) (node : string) : bool :=
  match dict_get node graph with
  | Some depends =>
      bool_decide (depends ∩ list_to_set (dict_keys graph)
                     ⊆ list_to_set placed)
  | None => false
  end.

Fixpoint topological_loop (fuel : nat) (graph : dict string (gset string))
         (need_to_visit topology : list string) : list string :=
  match fuel with
  | O => topology
  | S fuel' =>
      match List.find (placeable graph topology) need_to_visit with
      | Some node =>
          topological_loop fuel' graph
            (List.filter (fun n => negb (String.eqb n node)) need_to_visit)
            (topology ++ [node])
      | None => topology
      end
  end.

Definition stable_topological_sort (graph : dict string (gset string))
  : res (list string) :=
  let result :=
    topological_loop (length graph) graph (dict_keys graph) [] in
  if (length result <? length graph)%nat then Raise ValueError
  else Ok result.

(** The exit code as the specification words it, as a predicate on the
    value [rc] returned for [runs]: 0 when every code is 0; otherwise,
    when an environment that is not skipped failed, 1, except that a
    run over exactly one environment propagates its code. *)
Definition stated_exit_code (runs : list ToxEnvRunResult) (rc : Z) : Prop :=
  (Forall (fun run => code run = 0) runs -> rc = 0) /\
  (Exists (fun run => skipped run = false /\ code run <> 0) runs ->
   match runs with
   | [run0] => rc = code run0
   | _ => rc = 1
   end).

(** ** Notions used to state the properties of the scheduler *)

(** [env] has an entry in [todo] and nothing of it is missing from
    [completed]. *)
Definition is_ready (todo : dict string (gset string))
           (completed : gset string) (env : string) : bool :=
  match dict_get env todo with
  | Some depends => bool_decide (depends ∖ completed = ∅)
  | None => false
  end.

(** The order and graph a generator will work on at its next [next]. *)
Definition pending_order
           (sort : dict string (gset string) -> res (list string))
           (state : State) (g : Generator)
  : option (list string * dict string (gset string)) :=
  match g with
  | Created to_run =>
      match run_order sort state to_run with
      | Ok p => Some p
      | Raise _ => None
      end
  | Suspended order todo => Some (order, todo)
  | Exhausted => None
  end.

(** What the loop keeps true: the generator works on the graph built
    from [to_run_list], and every environment waiting in the [for]
    loop has its in-universe dependencies completed. *)
Definition driver_inv (state : State) (to_run_list : list string)
           (d : Driver) : Prop :=
  (forall order todo,
      generator d = Suspended order todo ->
      todo = build_todo state to_run_list) /\
  (forall to_run, generator d = Created to_run -> to_run = to_run_list) /\
  (forall env_list,
      phase d = Queueing env_list ->
      forall env, env ∈ env_list ->
                  is_ready (build_todo state to_run_list) (completed d) env
                  = true).

End Common.

(* ================================================================== *)
(** * tox/execute/local_sub_process/__init__.py *)
(* ================================================================== *)
Module LocalSubProcess.
Import Api.

(** Seconds. *)
Definition WAIT_INTERRUPT : Q := 3 # 10.
Definition WAIT_TERMINATE : Q := 2 # 10.

(** Modelled from the spec: [SyncWrite] (tox/execute/stream.py) is not
    part of the sources at hand.  It is the buffer of a stream drain: the
    handler appends what it is given, in arrival order, and [text] is the
    buffer resolved to a string. *)
Record SyncWrite := { content : string }.

Definition handler (w : SyncWrite) (data : string) : SyncWrite :=
  {| content := content w +:+ data |}.

Definition text (w : SyncWrite) : string := content w.

(** ** The child process

    [subprocess.Popen] belongs to the platform.  A child is described
    by how it reacts to a signal: what it writes, and, if the signal
    makes it exit, after how many seconds and with which status. *)
Inductive Signal := SIGINT | SIGTERM | SIGKILL.

Record Reaction := {
  writes_out : string;
  writes_err : string;
  exits : option (Q * Z)
}.

Inductive StdinPipe :=
| NoPipe                      (* stdin is inherited *)
| OpenPipe (written : string)
| ClosedPipe.

Record Popen := {
  pid : Z;
  returncode : option Z;       (* [None] until the child was reaped *)
  dying : option (Q * Z);      (* seconds left to live, exit status *)
  unread_out : string;         (* written to the pipes, not read yet *)
  unread_err : string;
  closed : bool;               (* stdout and stderr are closed *)
  stdin_pipe : StdinPipe;
  _communication_started : bool;
  _fileobj2output : option (string * string);
                               (* what [communicate] has read of stdout
                                  and stderr; [None]: no such attribute *)
  received : list Signal;      (* signals delivered so far *)
  on_signal : Signal -> Reaction
}.

Definition sooner (a b : option (Q * Z)) : option (Q * Z) :=
  match a, b with
  | None, x | x, None => x
  | Some (t1, _), Some (t2, _) => if Qle_bool t1 t2 then a else b
  end.

(** [proc.poll()]: reaps a child whose time is up. *)
Definition poll (p : Popen) : option Z * Popen :=
  match returncode p, dying p with
  | None, Some (t, status) =>
      if Qle_bool t 0 then
        (Some status,
         {| pid := pid p; returncode := Some status; dying := None;
            unread_out := unread_out p; unread_err := unread_err p;
            closed := closed p; stdin_pipe := stdin_pipe p;
            _communication_started := _communication_started p;
            _fileobj2output := _fileobj2output p;
            received := received p; on_signal := on_signal p |})
      else (None, p)
  | code, _ => (code, p)
  end.

(** [proc.send_signal(sig)]: nothing is sent to a child that is gone. *)
Definition send_signal (sig : Signal) (p : Popen) : Popen :=
  let '(code, p) := poll p in
  match code with
  | Some _ => p
  | None =>
      let r := on_signal p sig in
      {| pid := pid p; returncode := None;
         dying := sooner (dying p) (exits r);
         unread_out := unread_out p +:+ writes_out r;
         unread_err := unread_err p +:+ writes_err r;
         closed := closed p; stdin_pipe := stdin_pipe p;
         _communication_started := _communication_started p;
         _fileobj2output := _fileobj2output p;
         received := received p ++ [sig]; on_signal := on_signal p |}
  end.

(** [proc.terminate()] *)
Definition terminate (p : Popen) : Popen := send_signal SIGTERM p.

(** [proc.kill()]: cannot be handled, the child is gone at once with
    status -9. *)
Definition kill (p : Popen) : Popen :=
  let '(code, p) := poll p in
  match code with
  | Some _ => p
  | None =>
      {| pid := pid p; returncode := None; dying := Some (0%Q, -9);
         unread_out := unread_out p; unread_err := unread_err p;
         closed := closed p; stdin_pipe := stdin_pipe p;
         _communication_started := _communication_started p;
         _fileobj2output := _fileobj2output p;
         received := received p ++ [SIGKILL]; on_signal := on_signal p |}
  end.

(** What [proc.communicate(timeout)] and [proc.wait(timeout)] do. *)
Inductive Waited :=
| Reaped (out err : string)   (* the child ended; what was read of it *)
| TimedOut                    (* raises [TimeoutExpired] *)
| ClosedStdin                 (* raises [ValueError]: flush of closed file *)
| NoOutput                    (* raises [AttributeError] *)
| Blocks.                     (* never returns *)

Definition reap (p : Popen) (status : Z) : Popen :=
  {| pid := pid p; returncode := Some status; dying := None;
     unread_out := unread_out p; unread_err := unread_err p;
     closed := closed p; stdin_pipe := stdin_pipe p;
     _communication_started := _communication_started p;
     _fileobj2output := _fileobj2output p;
     received := received p; on_signal := on_signal p |}.

Definition age (p : Popen) (t : Q) (status : Z) : Popen :=
  {| pid := pid p; returncode := None; dying := Some (Qred t, status);
     unread_out := unread_out p; unread_err := unread_err p;
     closed := closed p; stdin_pipe := stdin_pipe p;
     _communication_started := _communication_started p;
     _fileobj2output := _fileobj2output p;
     received := received p; on_signal := on_signal p |}.

(** [proc.wait(timeout)]; [Reaped "" ""] stands for its return. *)
Definition wait (timeout : option Q) (p : Popen) : Waited * Popen :=
  match returncode p, dying p, timeout with
  | Some _, _, _ => (Reaped "" "", p)
  | None, Some (t, status), None => (Reaped "" "", reap p status)
  | None, Some (t, status), Some limit =>
      if Qle_bool t limit then (Reaped "" "", reap p status)
      else (TimedOut, age p (t - limit) status)
  | None, None, Some _ => (TimedOut, p)
  | None, None, None => (Blocks, p)
  end.

Definition with_stdin (p : Popen) (pipe : StdinPipe) : Popen :=
  {| pid := pid p; returncode := returncode p; dying := dying p;
     unread_out := unread_out p; unread_err := unread_err p;
     closed := closed p; stdin_pipe := pipe;
     _communication_started := _communication_started p;
     _fileobj2output := _fileobj2output p;
     received := received p; on_signal := on_signal p |}.

(** [Popen.communicate] is the standard library's (its POSIX
    [_communicate]), for a child whose stdout and stderr are pipes and
    that is given no input.

    The first call flushes a piped stdin, which raises [ValueError]
    ([None] below) on a file that was closed, and closes it.  Later
    calls leave stdin alone. *)
Definition flush_stdin (p : Popen) : option Popen :=
  if _communication_started p then Some p
  else
    match stdin_pipe p with
    | ClosedPipe => None
    | OpenPipe _ => Some (with_stdin p ClosedPipe)
    | NoPipe => Some p
    end.

(** [self._fileobj2output[self.stdout]], [...[self.stderr]]: the first
    call creates the mapping, with nothing read yet; a later call finds
    what the calls before it left, or no mapping when the first call
    did not get that far. *)
Definition output_so_far (p : Popen) : option (string * string) :=
  if _communication_started p then _fileobj2output p else Some ("", "").

(** [communicate] leaves [_communication_started] set however it ends
    (the [finally] clause), and the mapping as far as it was filled. *)
Definition communicating (p : Popen) (output : option (string * string))
  : Popen :=
  {| pid := pid p; returncode := returncode p; dying := dying p;
     unread_out := unread_out p; unread_err := unread_err p;
     closed := closed p; stdin_pipe := stdin_pipe p;
     _communication_started := true;
     _fileobj2output := output;
     received := received p; on_signal := on_signal p |}.

(** Pipes that are closed are not registered with the selector; from
    the open ones all that the child has written is read and added to
    the mapping. *)
Definition read_pipes (p : Popen) (output : string * string) : Popen :=
  if closed p then communicating p (Some output)
  else
    {| pid := pid p; returncode := returncode p; dying := dying p;
       unread_out := ""; unread_err := "";
       closed := false; stdin_pipe := stdin_pipe p;
       _communication_started := true;
       _fileobj2output :=
         Some (fst output +:+ unread_out p, snd output +:+ unread_err p);
       received := received p; on_signal := on_signal p |}.

(** At end of file the pipes are closed. *)
Definition close_pipes (p : Popen) : Popen :=
  {| pid := pid p; returncode := returncode p; dying := dying p;
     unread_out := unread_out p; unread_err := unread_err p;
     closed := true; stdin_pipe := stdin_pipe p;
     _communication_started := _communication_started p;
     _fileobj2output := _fileobj2output p;
     received := received p; on_signal := on_signal p |}.

(** [proc.communicate(timeout)]: the open pipes are read until the child
    ends or the time is up; in the latter case what was read stays in
    the mapping for the next call.  Once the child has ended, all that
    the mapping holds is returned, by this call and again by every
    later one. *)
Definition communicate (timeout : option Q) (p : Popen) : Waited * Popen :=
  match flush_stdin p with
  | None => (ClosedStdin, communicating p (_fileobj2output p))
  | Some p =>
      match output_so_far p with
      | None => (NoOutput, communicating p None)
      | Some output =>
          match wait timeout (read_pipes p output) with
          | (Reaped _ _, p') =>
              (Reaped (fst (default ("", "") (_fileobj2output p')))
                      (snd (default ("", "") (_fileobj2output p'))),
               close_pipes p')
          | other => other
          end
      end
  end.


(** ** The instance *)

Record Instance := {
  request : ExecuteRequest;
  _out : SyncWrite;
  _err : SyncWrite;
  process : option Popen;
  _cmd : option (list string);
  _read_stderr : option string;   (* the drain thread, by its name *)
  _read_stdout : option string;
  _on_exit_drain : bool
}.

(** [LocalSubProcessExecuteInstance.__init__] *)
Definition init (request : ExecuteRequest) (out err : SyncWrite) : Instance :=
  {| request := request; _out := out; _err := err; process := None;
     _cmd := None; _read_stderr := None; _read_stdout := None;
     _on_exit_drain := true |}.

Definition with_cmd (self : Instance) (cmd : list string) : Instance :=
  {| request := request self; _out := _out self; _err := _err self;
     process := process self; _cmd := Some cmd;
     _read_stderr := _read_stderr self; _read_stdout := _read_stdout self;
     _on_exit_drain := _on_exit_drain self |}.

Definition with_process (self : Instance) (proc : Popen)
           (out err : SyncWrite) : Instance :=
  {| request := request self; _out := out; _err := err;
     process := Some proc; _cmd := _cmd self;
     _read_stderr := _read_stderr self; _read_stdout := _read_stdout self;
     _on_exit_drain := _on_exit_drain self |}.

Definition with_out_err (self : Instance) (out err : SyncWrite) : Instance :=
  {| request := request self; _out := out; _err := err;
     process := process self; _cmd := _cmd self;
     _read_stderr := _read_stderr self; _read_stdout := _read_stdout self;
     _on_exit_drain := _on_exit_drain self |}.

(** ** [interrupt] *)

(** How a call of [interrupt] ends. *)
Inductive Interrupted :=
| Returned (code : Z)
| Escaped (e : exn)
| NeverReturns.

(** [self.out_handler(out); self.err_handler(err);
    return int(self.process.returncode)] *)
Definition hand_over (self : Instance) (proc : Popen) (out err : string)
  : Interrupted * Instance :=
  let self' := with_process self proc (handler (_out self) out)
                            (handler (_err self) err) in
  match returncode proc with
  | Some code => (Returned code, self')
  | None => (Escaped TypeError, self')
  end.

(** A [communicate] that ends in a way no [except] clause catches. *)
Definition not_caught (self : Instance) (proc : Popen) (w : Waited)
  : Interrupted * Instance :=
  let self' := with_process self proc (_out self) (_err self) in
  match w with
  | Blocks => (NeverReturns, self')
  | TimedOut => (Escaped TimeoutExpired, self')
  | NoOutput => (Escaped (AttributeError "_fileobj2output"), self')
  | _ => (Escaped ValueError, self')
  end.

(** [LocalSubProcessExecuteInstance.interrupt]: both timed waits are
    given [WAIT_INTERRUPT]. *)
Definition interrupt (self : Instance) : Interrupted * Instance :=
  match process self with
  | Some proc =>
      match poll proc with
      | (None, proc) =>                      (* still alive, first INT *)
          let proc := send_signal SIGINT proc in
          match communicate (Some WAIT_INTERRUPT) proc with
          | (Reaped out err, proc) => hand_over self proc out err
          | (TimedOut, proc) =>              (* if INT times out TERM *)
              let proc := terminate proc in
              match communicate (Some WAIT_INTERRUPT) proc with
              | (Reaped out err, proc) => hand_over self proc out err
              | (TimedOut, proc) =>          (* if TERM times out KILL *)
                  let proc := kill proc in
                  match communicate None proc with
                  | (Reaped out err, proc) => hand_over self proc out err
                  | (w, proc) => not_caught self proc w
                  end
              | (w, proc) => not_caught self proc w
              end
          | (w, proc) => not_caught self proc w
          end
      | (Some _, proc) =>
          match communicate None proc with   (* just drain *)
          | (Reaped out err, proc) => hand_over self proc out err
          | (ClosedStdin, proc) =>           (* [except ValueError] *)
              hand_over self proc "" ""
          | (w, proc) => not_caught self proc w
          end
      end
  | None => (Returned OK, self)
  end.

(** The cascade as the specification tabulates it: 300 ms after the
    soft interrupt, 200 ms after terminate, then kill and wait without
    bound. *)
Definition interrupt_as_specified (self : Instance)
  : Interrupted * Instance :=
  match process self with
  | Some proc =>
      match poll proc with
      | (None, proc) =>
          let proc := send_signal SIGINT proc in
          match communicate (Some WAIT_INTERRUPT) proc with
          | (Reaped out err, proc) => hand_over self proc out err
          | (TimedOut, proc) =>
              let proc := terminate proc in
              match communicate (Some WAIT_TERMINATE) proc with
              | (Reaped out err, proc) => hand_over self proc out err
              | (TimedOut, proc) =>
                  let proc := kill proc in
                  match communicate None proc with
                  | (Reaped out err, proc) => hand_over self proc out err
                  | (w, proc) => not_caught self proc w
                  end
              | (w, proc) => not_caught self proc w
              end
          | (w, proc) => not_caught self proc w
          end
      | (Some _, proc) =>
          match communicate None proc with
          | (Reaped out err, proc) => hand_over self proc out err
          | (ClosedStdin, proc) => hand_over self proc "" ""
          | (w, proc) => not_caught self proc w
          end
      end
  | None => (Returned OK, self)
  end.

(** ** Entering and leaving the instance; [Execute.call] *)

(** What [Popen(...)] does: a child, or an [OSError] with its [errno]. *)
Inductive Spawn :=
| Child (proc : Popen)
| OSError (errno : Z).

(** The status handed to the caller.  [LocalSubprocessExecuteStatus]
    shares the process and the buffers with the instance. *)
Inductive ExecuteStatus :=
| LocalSubprocessExecuteStatus
| LocalSubprocessExecuteFailedStatus (exit_code : option Z).

(** What the caller does with the status inside the [with] block. *)
Inductive StatusCall :=
| CallWait (timeout : option Q)
| CallWriteStdin (content : string)
| CallCloseStdin.

(** How [Execute.call] ends. *)
Inductive Called :=
| Completed (outcome : Outcome)
| ToxKeyboardInterrupt (outcome : Outcome)
| Propagated (e : exn)
| Hangs.

(** [status.close_stdin()] on a live process. *)
Definition close_stdin (p : Popen) : Popen :=
  match stdin_pipe p with
  | NoPipe => p
  | _ => with_stdin p ClosedPipe
  end.

(** [status.write_stdin(content)] on a live process. *)
Definition write_stdin (content : string) (p : Popen) : res Popen :=
  match stdin_pipe p with
  | NoPipe => Ok p
  | OpenPipe written => Ok (with_stdin p (OpenPipe (written +:+ content)))
  | ClosedPipe => Raise ValueError
  end.

(** [status.exit_code] *)
Definition status_exit_code (status : ExecuteStatus) (self : Instance)
  : option Z :=
  match status with
  | LocalSubprocessExecuteStatus =>
      match process self with
      | Some proc => returncode proc
      | None => None
      end
  | LocalSubprocessExecuteFailedStatus exit_code => exit_code
  end.

(** [__exit__]: the drain threads, where they exist, pull what is left
    in the pipes into the handlers. *)
Definition exit_ (self : Instance) : Instance :=
  match process self with
  | Some proc =>
      let out :=
        match _read_stdout self with
        | Some _ => handler (_out self) (unread_out proc)
        | None => _out self
        end in
      let err :=
        match _read_stderr self with
        | Some _ => handler (_err self) (unread_err proc)
        | None => _err self
        end in
      let proc' :=
        {| pid := pid proc; returncode := returncode proc;
           dying := dying proc;
           unread_out := match _read_stdout self with
                         | Some _ => "" | None => unread_out proc end;
           unread_err := match _read_stderr self with
                         | Some _ => "" | None => unread_err proc end;
           closed := closed proc; stdin_pipe := stdin_pipe proc;
           _communication_started := _communication_started proc;
           _fileobj2output := _fileobj2output proc;
           received := received proc; on_signal := on_signal proc |} in
      with_process self proc' out err
  | None => self
  end.

Section Platform.
(** [WAIT_GENERAL] is imported from [read_via_thread]. *)
Variable WAIT_GENERAL : Q.
(** [Popen(cmd, ..., cwd=..., env=...)] *)
Variable spawn : list string -> ExecuteRequest -> Spawn.
(** [shutil.which(name, path=...)] *)
Variable which : string -> string -> option string.

(** The property [cmd]: in
    [shutil.which(self.request.cmd[0], path=self.request.env["PATH"])]
    the arguments are evaluated left to right. *)
Definition cmd_of (self : Instance) : res (list string) * Instance :=
  match _cmd self with
  | Some cmd => (Ok cmd, self)
  | None =>
      match Api.cmd (request self) with
      | [] => (Raise IndexError, self)
      | cmd0 :: cmd_tail =>
          match env (request self) !! "PATH" with
          | None => (Raise KeyError, self)
          | Some path =>
              let cmd :=
                match which cmd0 path with
                | None => Api.cmd (request self)
                | Some executable => executable :: cmd_tail
                end in
              (Ok cmd, with_cmd self cmd)
          end
      end
  end.

(** [__enter__] *)
Definition enter (self : Instance) : res ExecuteStatus * Instance :=
  match cmd_of self with
  | (Raise e, self) => (Raise e, self)
  | (Ok cmd, self) =>
      match spawn cmd (request self) with
      | OSError errno =>
          (Ok (LocalSubprocessExecuteFailedStatus (Some errno)), self)
      | Child process =>
          let process :=
            with_stdin process
                       (match stdin (request self) with
                        | USER => NoPipe
                        | OFF => ClosedPipe   (* [status.close_stdin()] *)
                        | API => OpenPipe ""
                        end) in
          (Ok LocalSubprocessExecuteStatus,
           {| request := request self; _out := _out self; _err := _err self;
              process := Some process; _cmd := _cmd self;
              _read_stderr := Some ("err-" +:+ pretty (pid process));
              _read_stdout := Some ("out-" +:+ pretty (pid process));
              _on_exit_drain := _on_exit_drain self |})
      end
  end.

(** One call on the status. *)
Definition status_call (status : ExecuteStatus) (c : StatusCall)
           (self : Instance) : res unit * Instance :=
  match status, process self with
  | LocalSubprocessExecuteStatus, Some proc =>
      match c with
      | CallWait timeout =>
          let '(_, proc') := wait (Some (default WAIT_GENERAL timeout)) proc in
          (Ok tt, with_process self proc' (_out self) (_err self))
      | CallWriteStdin content =>
          match write_stdin content proc with
          | Ok proc' => (Ok tt, with_process self proc' (_out self) (_err self))
          | Raise e => (Raise e, self)
          end
      | CallCloseStdin =>
          (Ok tt, with_process self (close_stdin proc) (_out self) (_err self))
      end
  | _, _ => (Ok tt, self)   (* already dead / cannot write / never opened *)
  end.

Fixpoint with_body (status : ExecuteStatus) (body : list StatusCall)
         (self : Instance) : res unit * Instance :=
  match body with
  | [] => (Ok tt, self)
  | c :: body' =>
      match status_call status c self with
      | (Ok _, self') => with_body status body' self'
      | (Raise e, self') => (Raise e, self')
      end
  end.

(** [Execute.call(request, show, out_err)] around a [with] block that
    makes the calls [body] on the status and is then, when
    [keyboard_interrupt] is set, hit by a [KeyboardInterrupt]. *)
Definition call (request : ExecuteRequest) (show : bool) (start end_ : Q)
           (body : list StatusCall) (keyboard_interrupt : bool) : Called :=
  let out_sync := {| content := "" |} in
  let err_sync := {| content := "" |} in
  let instance := init request out_sync err_sync in
  match enter instance with
  | (Raise e, _) => Propagated e
  | (Ok status, instance) =>
      match with_body status body instance with
      | (Raise e, _) => Propagated e
      | (Ok _, instance) =>
          let instance := exit_ instance in
          let outcome_of (exit_code : option Z) (instance : Instance)
            : res Outcome :=
            match cmd_of instance with
            | (Ok cmd, _) =>
                Ok {| Api.request := request; show_on_standard := show;
                      exit_code := exit_code;
                      out := text (_out instance);
                      err := text (_err instance);
                      start := start; end_ := end_; resolved_cmd := cmd |}
            | (Raise e, _) => Raise e
            end in
          if keyboard_interrupt then
            match interrupt instance with
            | (Returned code, instance) =>
                match outcome_of (Some code) instance with
                | Ok outcome => ToxKeyboardInterrupt outcome
                | Raise e => Propagated e
                end
            | (Escaped e, _) => Propagated e
            | (NeverReturns, _) => Hangs
            end
          else
            match outcome_of (status_exit_code status instance) instance with
            | Ok outcome => Completed outcome
            | Raise e => Propagated e
            end
      end
  end.

End Platform.

(** The signals the child of an instance has received. *)
Definition signals_received (self : Instance) : list Signal :=
  match process self with
  | Some proc => received proc
  | None => []
  end.

End LocalSubProcess.

(* ================================================================== *)
(** * tox/util/spinner.py *)
(* ================================================================== *)
Module Spinner.

(** A Python 3 [str] is a sequence of code points; [len] counts them. *)
Abbreviation str := (list N) (only parsing).

(** An ASCII literal. *)
Definition lit (s : string) : str :=
  map N_of_ascii (list_ascii_of_string s).

(** [sep.join(parts)] *)
Fixpoint join (sep : str) (parts : list str) : str :=
  match parts with
  | [] => []
  | [part] => part
  | part :: parts' => part ++ sep ++ join sep parts'
  end.

(** [CLEAR_LINE = "\033[K"] *)
Definition CLEAR_LINE : str := 27%N :: lit "[K".
Definition max_width : nat := 120.
(** The ten braille glyphs of [frames], each one code point. *)
Definition frames : list str :=
  [ [0x280B%N]; [0x2819%N]; [0x2839%N]; [0x2838%N]; [0x283C%N];
    [0x2834%N]; [0x2826%N]; [0x2827%N]; [0x2807%N]; [0x280F%N] ].

Inductive OsName := nt | posix | other_os.

(** What the spinner takes from its surroundings: [os.name],
    [stream.isatty()], [os.linesep], and the text [td_human_readable]
    makes of an elapsed time (it formats a float). *)
Record Platform := {
  os_name : OsName;
  isatty : bool;
  linesep : str;
  td_human_readable : Z -> str
}.

Record Spinner := {
  _envs : dict str Z;             (* name -> [datetime.now()] at [add] *)
  _frame_index : nat;
  enabled : bool;
  stream : list str;              (* the [stream.write] calls so far *)
  _stop_spinner : option bool     (* unset attribute / [is_set()] *)
}.

(** [Spinner.__init__] *)
Definition init (enabled : bool) : Spinner :=
  {| _envs := []; _frame_index := 0; enabled := enabled; stream := [];
     _stop_spinner := None |}.

Definition write (self : Spinner) (text : str) : Spinner :=
  {| _envs := _envs self; _frame_index := _frame_index self;
     enabled := enabled self; stream := stream self ++ [text];
     _stop_spinner := _stop_spinner self |}.

Definition with_envs (self : Spinner) (envs : dict str Z) : Spinner :=
  {| _envs := envs; _frame_index := _frame_index self;
     enabled := enabled self; stream := stream self;
     _stop_spinner := _stop_spinner self |}.

Definition with_frame_index (self : Spinner) (index : nat) : Spinner :=
  {| _envs := _envs self; _frame_index := index;
     enabled := enabled self; stream := stream self;
     _stop_spinner := _stop_spinner self |}.

Definition with_stop (self : Spinner) (stop : bool) : Spinner :=
  {| _envs := _envs self; _frame_index := _frame_index self;
     enabled := enabled self; stream := stream self;
     _stop_spinner := Some stop |}.

(** [add(name)]: [self._envs[name] = datetime.now()] *)
Definition add (self : Spinner) (name : str) (now : Z) : Spinner :=
  with_envs self (dict_set name now (_envs self)).

(** [clear()] *)
Definition clear (self : Spinner) : Spinner :=
  if enabled self then write (write self [13%N]) CLEAR_LINE else self.

(** The text of [frame] before it is cut:
    ["[{}] {}".format(len(self._envs), " | ".join(self._envs))] *)
Definition full_text (self : Spinner) : str :=
  lit "[" ++ lit (pretty (length (_envs self))) ++ lit "] "
      ++ join (lit " | ") (dict_keys (_envs self)).

(** [frame()] *)
Definition frame (self : Spinner) : res str * Spinner :=
  match frames !! _frame_index self with
  | None => (Raise IndexError, self)
  | Some frame =>
      let self := with_frame_index self
                    ((_frame_index self + 1) mod length frames) in
      let text_frame := full_text self in
      let text_frame :=
        if (max_width - 1 <? length text_frame)%nat
        then take (max_width - 1 - 3) text_frame ++ lit "..."
        else text_frame in
      (Ok (frame ++ lit " " ++ text_frame), self)
  end.

(** [render_frame()] *)
Definition render_frame (self : Spinner) : res unit * Spinner :=
  if enabled self then
    let self := clear self in
    match frame self with
    | (Ok text, self) => (Ok tt, write self (13%N :: text))
    | (Raise e, self) => (Raise e, self)
    end
  else (Ok tt, self).

Section OnPlatform.
Variable platform : Platform.

(** [disable_cursor()] / [enable_cursor()] *)
Definition cursor (self : Spinner) (mode : string) : Spinner :=
  if isatty platform then
    match os_name platform with
    | posix => write self (27%N :: lit "[?25" ++ lit mode)
    | _ => self
    end
  else self.

Definition disable_cursor (self : Spinner) : Spinner := cursor self "l".
Definition enable_cursor (self : Spinner) : Spinner := cursor self "h".

(** [__enter__] *)
Definition enter (self : Spinner) : Spinner :=
  let self := if enabled self then disable_cursor self else self in
  with_stop self false.

(** [__exit__] *)
Definition exit_ (self : Spinner) : res unit * Spinner :=
  match _stop_spinner self with
  | None => (Raise (AttributeError "_stop_spinner"), self)
  | Some true => (Ok tt, self)
  | Some false =>
      let self := with_stop self true in
      let self := with_frame_index self 0 in
      (Ok tt, if enabled self then enable_cursor (clear self) else self)
  end.

(** [finalize(key, status)] at time [now]. *)
Definition finalize (self : Spinner) (key status : str) (now : Z)
  : res unit * Spinner :=
  match dict_get key (_envs self) with
  | None => (Raise KeyError, self)
  | Some start_at =>
      let self := with_envs self (dict_del key (_envs self)) in
      let self := if enabled self then clear self else self in
      let self :=
        write self
              (status ++ lit " " ++ key ++ lit " in "
                      ++ td_human_readable platform (now - start_at)
                      ++ linesep platform) in
      match _envs self with
      | [] => exit_ self
      | _ :: _ => (Ok tt, self)
      end
  end.

(** [succeed], [fail], [skip] *)
Definition succeed (self : Spinner) (key : str) (now : Z) :=
  finalize self key (0x2714%N :: lit " OK") now.
Definition fail (self : Spinner) (key : str) (now : Z) :=
  finalize self key (0x2716%N :: lit " FAIL") now.
Definition skip (self : Spinner) (key : str) (now : Z) :=
  finalize self key (0x26A0%N :: lit " SKIP") now.

(** The calls made on a spinner. *)
Inductive Op :=
| Add (name : str) (now : Z)
| Finalize (key status : str) (now : Z)
| RenderFrame
| Enter
| Exit.

(** The spinner after a call, whether it returned or raised. *)
Definition after (self : Spinner) (op : Op) : Spinner :=
  match op with
  | Add name now => add self name now
  | Finalize key status now => snd (finalize self key status now)
  | RenderFrame => snd (render_frame self)
  | Enter => enter self
  | Exit => snd (exit_ self)
  end.

Definition after_all (self : Spinner) (history : list Op) : Spinner :=
  fold_left after history self.

End OnPlatform.

(** Whether, at the end of [history], [name] has been added and not
    finalized since. *)
Fixpoint running (history : list Op) (name : str) (so_far : bool) : bool :=
  match history with
  | [] => so_far
  | Add name' _ :: history' =>
      running history' name (if decide (name = name') then true else so_far)
  | Finalize key _ _ :: history' =>
      running history' name (if decide (name = key) then false else so_far)
  | _ :: history' => running history' name so_far
  end.

(** A text without a line feed. *)
Definition one_line (text : str) : Prop := ~ In 10%N text.

End Spinner.

(* ================================================================== *)
(** * tox/execute/api.py: checking an outcome *)
(* ================================================================== *)
Module OutcomeChecks.
Import Api.

Inductive Level := INFO | CRITICAL.

(** What [assert_success] writes and logs, in order. *)
Inductive Emitted :=
| PrintOut (text : string)       (* [print(self.out, file=sys.stdout)] *)
| PrintErrRed (text : string)    (* the three prints of [self.err] *)
| LogRunDone (lvl : Level).      (* [self.log_run_done(lvl)] *)

(** How [assert_success] ends. *)
Inductive Asserted :=
| Passed
| SystemExit (code : option Z).

(** The truth value of a [str]: not empty. *)
Definition truthy (text : string) : bool :=
  match text with
  | EmptyString => false
  | _ => true
  end.

(** [_assert_fail] *)
Definition _assert_fail (o : Outcome) : Asserted * list Emitted :=
  (SystemExit (exit_code o),
   (if show_on_standard o then []
    else (if truthy (out o) then [PrintOut (out o)] else [])
           ++ (if truthy (err o) then [PrintErrRed (err o)] else []))
     ++ [LogRunDone CRITICAL]).

(** [assert_success] *)
Definition assert_success (o : Outcome) : Asserted * list Emitted :=
  match exit_code o with
  | Some code =>
      if negb (Z.eqb code OK) then _assert_fail o
      else (Passed, [LogRunDone INFO])
  | None => (Passed, [LogRunDone INFO])
  end.

End OutcomeChecks.

(* ================================================================== *)
(** * tox/session/cmd/run/common.py: the end of [execute] *)
(* ================================================================== *)
Module Session.
Import Common.

(** [name_to_run = {r.name: r for r in results}]: a later result of
    the same name replaces an earlier one. *)
Definition name_to_run (results : list ToxEnvRunResult)
  : gmap string ToxEnvRunResult :=
  fold_left (fun m r => <[ name r := r ]> m) results ∅.

(** [for env in to_run_list: ordered_results.append(name_to_run[env])] *)
Fixpoint ordered_loop (name_to_run : gmap string ToxEnvRunResult)
         (to_run_list : list string) (ordered_results : list ToxEnvRunResult)
  : res (list ToxEnvRunResult) :=
  match to_run_list with
  | [] => Ok ordered_results
  | env :: to_run_list' =>
      match name_to_run !! env with
      | Some r => ordered_loop name_to_run to_run_list' (ordered_results ++ [r])
      | None => Raise KeyError
      end
  end.

Definition ordered_results (to_run_list : list string)
           (results : list ToxEnvRunResult) : res (list ToxEnvRunResult) :=
  ordered_loop (name_to_run results) to_run_list [].

(** The [finally] block of [execute]: order the results, report, and
    take the exit code from the report. *)
Definition execute_finally (to_run_list : list string)
           (results : list ToxEnvRunResult) : res (list Printed * Z) :=
  match ordered_results to_run_list results with
  | Ok ordered => Ok (report ordered)
  | Raise e => Raise e
  end.

(** The results handed to [_handle_one_run_done], in order. *)
Definition handled (events : list Event) : list ToxEnvRunResult :=
  omap (fun e => match e with HandleDone r => Some r | _ => None end) events.

(** The result collected in this loop iteration and not handled yet. *)
Definition in_hand (p : Phase) : list ToxEnvRunResult :=
  match p with
  | Pulling (Some r) => [r]
  | _ => []
  end.

(** Every recorded result was handed to [_handle_one_run_done], in
    order, except the one in hand (nothing is said of a crashed loop). *)
Definition results_accounted (d : Driver) : Prop :=
  match phase d with
  | Crashed _ => True
  | p => handled (events d) ++ in_hand p = results d
  end.

End Session.

(* ================================================================== *)
(** * tox/util/spinner.py: the render loop *)
(* ================================================================== *)
Module Render.
Import Spinner.

(** [n] turns of [render]'s loop body as far as [frame] is concerned:
    the spinner after [n] successive calls of [frame]; a call that
    raises ends the loop. *)
Fixpoint frame_n (n : nat) (self : Spinner) : res unit * Spinner :=
  match n with
  | O => (Ok tt, self)
  | S n' =>
      match frame self with
      | (Ok _, self') => frame_n n' self'
      | (Raise e, self') => (Raise e, self')
      end
  end.

End Render.

(* ================================================================== *)
(** * Inputs on which the statements are exercised *)
(* ================================================================== *)

(** Two environments, [a] failing with code 1 and [b] passing. *)
Definition runs_a_fails_b_passes : list Common.ToxEnvRunResult :=
  [ {| Common.name := "a"; Common.skipped := false; Common.code := 1;
       Common.outcomes := []; Common.duration := 1 |};
    {| Common.name := "b"; Common.skipped := false; Common.code := 0;
       Common.outcomes := []; Common.duration := 1 |} ].

(** The universe [x, y, w, z] in which [y] waits for [x] and [z] for [y]. *)
Definition chain_state : Common.State :=
  {| Common.tox_env := fun env =>
       if String.eqb env "y" then Some ["x"]
       else if String.eqb env "z" then Some ["y"]
       else Some [] |}.

Definition chain_to_run : list string := ["x"; "y"; "w"; "z"].

(** The chain [x, y, w, z] driven until [x] has finished and the batch
    [y] has been pulled: [w] is still queued in the pool. *)
Definition chain_schedule : list Common.Action :=
  [ Common.Drive; Common.Drive; Common.Drive;    (* first batch: x, w *)
    Common.Drive; Common.Drive; Common.Drive;    (* both submitted *)
    Common.Start 0;
    Common.Finish 0 {| Common.name := "x"; Common.skipped := false;
                       Common.code := 0; Common.outcomes := [];
                       Common.duration := 1 |};
    Common.Complete 0; Common.Drive ].

Definition chain_before_y : Common.Driver :=
  default (Common.start chain_to_run None)
          (Common.run Common.stable_topological_sort chain_state 0
                      (Common.start chain_to_run None) chain_schedule).

(** The chain interrupted while [y] waits in the [for] loop and [w] is
    still queued in the pool. *)
Definition chain_interrupted : Common.Driver :=
  default (Common.start chain_to_run None)
          (Common.run Common.stable_topological_sort chain_state 0
                      chain_before_y [Common.SetInterrupt]).

(** A request for a program that is not on the [PATH]. *)
Definition missing_request : Api.ExecuteRequest :=
  {| Api.cmd := ["sys-must-be-missing"]; Api.cwd := "/tmp";
     Api.env := {[ "PATH" := "/usr/bin" ]}; Api.stdin := Api.OFF |}.

(** The same request without [PATH] in its environment. *)
Definition pathless_request : Api.ExecuteRequest :=
  {| Api.cmd := ["python"; "-c"; "pass"]; Api.cwd := "/tmp";
     Api.env := {[ "HOME" := "/root" ]}; Api.stdin := Api.OFF |}.

(** A request whose stdin is fed through the API: the pipe stays open. *)
Definition fed_request : Api.ExecuteRequest :=
  {| Api.cmd := ["python"; "-c"; "pass"]; Api.cwd := "/tmp";
     Api.env := {[ "PATH" := "/usr/bin" ]}; Api.stdin := Api.API |}.

(** A child, with an open stdin pipe, that ignores the soft interrupt
    and, on terminate, cleans up for a quarter of a second before it
    exits with status 3. *)
Definition slow_to_terminate : LocalSubProcess.Popen :=
  {| LocalSubProcess.pid := 4242;
     LocalSubProcess.returncode := None;
     LocalSubProcess.dying := None;
     LocalSubProcess.unread_out := "";
     LocalSubProcess.unread_err := "";
     LocalSubProcess.closed := false;
     LocalSubProcess.stdin_pipe := LocalSubProcess.OpenPipe "";
     LocalSubProcess._communication_started := false;
     LocalSubProcess._fileobj2output := None;
     LocalSubProcess.received := [];
     LocalSubProcess.on_signal := fun sig =>
       match sig with
       | LocalSubProcess.SIGINT =>
           {| LocalSubProcess.writes_out := "";
              LocalSubProcess.writes_err := "how about no KeyboardInterrupt";
              LocalSubProcess.exits := None |}
       | LocalSubProcess.SIGTERM =>
           {| LocalSubProcess.writes_out := "cleaning up";
              LocalSubProcess.writes_err := "";
              LocalSubProcess.exits := Some (1 # 4, 3) |}
       | LocalSubProcess.SIGKILL =>
           {| LocalSubProcess.writes_out := "";
              LocalSubProcess.writes_err := "";
              LocalSubProcess.exits := None |}
       end |}.

Definition running_slow_to_terminate : LocalSubProcess.Instance :=
  LocalSubProcess.with_process
    (LocalSubProcess.init fed_request
       {| LocalSubProcess.content := "" |}
       {| LocalSubProcess.content := "" |})
    slow_to_terminate
    {| LocalSubProcess.content := "" |}
    {| LocalSubProcess.content := "" |}.

(** Two environments [a] and [b] are running. *)
Definition spinner_a_b : Spinner.Spinner :=
  Spinner.add (Spinner.add (Spinner.init true) (Spinner.lit "a") 0)
              (Spinner.lit "b") 1.

(** One environment with a name of 130 letters is running. *)
Definition spinner_long_name : Spinner.Spinner :=
  Spinner.add (Spinner.init true) (repeat 97%N 130) 0.

(** The graph of the chain. *)
Definition chain_todo : dict string (gset string) :=
  Common.build_todo chain_state chain_to_run.

(** A run over no environment at all, with one worker, to its end. *)
Definition empty_run_stopped : Common.Driver :=
  default (Common.start [] (Some 1%nat))
          (Common.run Common.stable_topological_sort chain_state 0
                      (Common.start [] (Some 1%nat))
                      [Common.Drive; Common.Drive; Common.Drive]).

(** The results [b], [a], and [a] again. *)
Definition results_b_a_a : list Common.ToxEnvRunResult :=
  [ {| Common.name := "b"; Common.skipped := false; Common.code := 0;
       Common.outcomes := []; Common.duration := 1 |};
    {| Common.name := "a"; Common.skipped := false; Common.code := 1;
       Common.outcomes := []; Common.duration := 1 |};
    {| Common.name := "a"; Common.skipped := true; Common.code := 0;
       Common.outcomes := []; Common.duration := 2 |} ].

(** An outcome without exit code whose output was not shown. *)
Definition unset_outcome : Api.Outcome :=
  {| Api.request := pathless_request; Api.show_on_standard := true;
     Api.exit_code := None; Api.out := "o"; Api.err := "e";
     Api.start := 0; Api.end_ := 1; Api.resolved_cmd := ["python"] |}.

(** A child with the given state, with which no [communicate] has been
    started, that reacts to the soft interrupt as told and ignores
    terminate. *)
Definition child (returncode : option Z) (closed : bool)
           (on_int : option (Q * Z)) : LocalSubProcess.Popen :=
  {| LocalSubProcess.pid := 7;
     LocalSubProcess.returncode := returncode;
     LocalSubProcess.dying := None;
     LocalSubProcess.unread_out := "left over";
     LocalSubProcess.unread_err := "";
     LocalSubProcess.closed := closed;
     LocalSubProcess.stdin_pipe := LocalSubProcess.NoPipe;
     LocalSubProcess._communication_started := false;
     LocalSubProcess._fileobj2output := None;
     LocalSubProcess.received := [];
     LocalSubProcess.on_signal := fun sig =>
       {| LocalSubProcess.writes_out := "";
          LocalSubProcess.writes_err := "bye";
          LocalSubProcess.exits :=
            match sig with
            | LocalSubProcess.SIGINT => on_int
            | _ => None
            end |} |}.

Definition instance_of (proc : LocalSubProcess.Popen)
  : LocalSubProcess.Instance :=
  LocalSubProcess.with_process
    (LocalSubProcess.init pathless_request
       {| LocalSubProcess.content := "" |}
       {| LocalSubProcess.content := "" |})
    proc
    {| LocalSubProcess.content := "" |}
    {| LocalSubProcess.content := "" |}.

(** A terminal on a POSIX system. *)
Definition posix_tty : Spinner.Platform :=
  {| Spinner.os_name := Spinner.posix; Spinner.isatty := true;
     Spinner.linesep := [10%N];
     Spinner.td_human_readable := fun _ => Spinner.lit "1 second" |}.

(** A disabled spinner, never entered, on which only [a] is running. *)
Definition spinner_quiet_a : Spinner.Spinner :=
  Spinner.add (Spinner.init false) (Spinner.lit "a") 0.

(* ================================================================== *)
(** * Insertion-ordered dictionaries *)
(* ================================================================== *)
Section DictFacts.
Context {K V : Type} `{EqDecision K}.

Lemma dict_get_set_any (k k' : K) (v : V) (d : dict K V) :
  dict_get k (dict_set k' v d)
  = if decide (k = k') then Some v else dict_get k d.
Proof.
  induction d as [|[k0 v0] d IH]; simpl.
  - reflexivity.
  - destruct (decide (k' = k0)) as [->|Hne]; simpl.
    + destruct (decide (k = k0)); reflexivity.
    + rewrite IH. destruct (decide (k = k0)) as [->|]; [|reflexivity].
      destruct (decide (k0 = k')); [congruence | reflexivity].
Qed.

Lemma dict_get_None_keys (k : K) (d : dict K V) :
  dict_get k d = None <-> ~ In k (dict_keys d).
Proof.
  induction d as [|[k0 v0] d IH]; simpl.
  - tauto.
  - destruct (decide (k = k0)) as [->|Hne].
    + split; [discriminate | intros H; exfalso; apply H; now left].
    + rewrite IH. split; [intros H [Heq|Hin]; congruence | tauto].
Qed.

Lemma dict_keys_set_NoDup (k : K) (v : V) (d : dict K V) :
  NoDup (dict_keys d) -> NoDup (dict_keys (dict_set k v d)).
Proof.
  induction d as [|[k0 v0] d IH]; simpl; intros Hd.
  - apply NoDup_singleton.
  - apply NoDup_cons in Hd as [Hk0 Hd]. rewrite list_elem_of_In in Hk0.
    destruct (decide (k = k0)) as [->|Hne]; simpl.
    + apply NoDup_cons. split; [now rewrite list_elem_of_In | exact Hd].
    + apply NoDup_cons. split; [|now apply IH].
      rewrite list_elem_of_In. apply dict_get_None_keys.
      rewrite dict_get_set_any. destruct (decide (k0 = k)); [congruence|].
      now apply dict_get_None_keys.
Qed.

Lemma dict_get_del (k k' : K) (d : dict K V) :
  NoDup (dict_keys d) ->
  dict_get k (dict_del k' d)
  = if decide (k = k') then None else dict_get k d.
Proof.
  induction d as [|[k0 v0] d IH]; simpl; intros Hd.
  - now destruct (decide (k = k')).
  - apply NoDup_cons in Hd as [Hk0 Hd]. rewrite list_elem_of_In in Hk0.
    destruct (decide (k' = k0)) as [->|Hne].
    + destruct (decide (k = k0)) as [->|]; [|reflexivity].
      now apply dict_get_None_keys.
    + simpl. rewrite (IH Hd).
      destruct (decide (k = k0)) as [->|]; [|reflexivity].
      destruct (decide (k0 = k')); [congruence | reflexivity].
Qed.

Lemma dict_keys_del_NoDup (k : K) (d : dict K V) :
  NoDup (dict_keys d) -> NoDup (dict_keys (dict_del k d)).
Proof.
  induction d as [|[k0 v0] d IH]; simpl; intros Hd; [exact Hd|].
  apply NoDup_cons in Hd as [Hk0 Hd]. rewrite list_elem_of_In in Hk0.
  destruct (decide (k = k0)) as [->|Hne]; [exact Hd|].
  simpl. apply NoDup_cons. split; [|now apply IH].
  rewrite list_elem_of_In. apply dict_get_None_keys.
  rewrite (dict_get_del _ _ _ Hd). destruct (decide (k0 = k)); [reflexivity|].
  now apply dict_get_None_keys.
Qed.

End DictFacts.

(* ================================================================== *)
(** * Outcome truthiness *)
(* ================================================================== *)

(** C8: for every [Outcome], [bool(outcome)] is true exactly when its
    [exit_code] is the integer 0 (an unset exit code counts as false). *)
Theorem outcome_bool_iff_exit_code_zero (o : Api.Outcome) :
  Api.bool_ o = true <-> Api.exit_code o = Some 0.
Proof.
  unfold Api.bool_, Api.py_eq_opt, Api.OK.
  destruct (Api.exit_code o) as [c|]; split; intros H; try discriminate.
  - apply Z.eqb_eq in H. now subst.
  - injection H as ->. reflexivity.
Qed.

(* ================================================================== *)
(** * The exit code of [report] *)
(* ================================================================== *)
Section ReportFacts.
Import Common.

Lemma report_loop_acc (runs : list ToxEnvRunResult) (b : bool)
      (printed : list Printed) :
  fst (fold_left
         (fun (acc : bool * list Printed) run =>
            let '(all_ok, printed) := acc in
            let ok := run_ok run in
            let line :=
              {| color := run_color run;
                 message := "  " +:+ name run +:+ ": " +:+ run_msg run |} in
            (ok && all_ok, printed ++ [line]))
         runs (b, printed))
  = forallb run_ok runs && b.
Proof.
  revert b printed.
  induction runs as [|run runs IH]; intros b printed; simpl.
  - reflexivity.
  - rewrite IH. destruct (run_ok run), (forallb run_ok runs), b; reflexivity.
Qed.

Lemma report_loop_all_ok (runs : list ToxEnvRunResult) :
  fst (report_loop runs) = forallb run_ok runs.
Proof.
  unfold report_loop. rewrite report_loop_acc. apply andb_true_r.
Qed.

Lemma report_code (runs : list ToxEnvRunResult) :
  snd (report runs) =
  if forallb run_ok runs then 0
  else match runs with [run0] => code run0 | _ => -1 end.
Proof.
  unfold report. pose proof (report_loop_all_ok runs) as H.
  destruct (report_loop runs) as [all_ok printed]. simpl in H. subst all_ok.
  destruct (forallb run_ok runs); simpl; [reflexivity|].
  destruct runs as [|r0 [|r1 rest]]; reflexivity.
Qed.

Lemma forallb_run_ok (runs : list ToxEnvRunResult) :
  forallb run_ok runs = true <-> Forall (fun run => code run = 0) runs.
Proof.
  rewrite forallb_forall, List.Forall_forall. unfold run_ok, Api.OK.
  split; intros H run Hin; specialize (H run Hin); lia.
Qed.

End ReportFacts.

(** C1 (as stated, refuted): with [a] failing with code 1 and [b] passing,
    a non-skipped environment failed and more than one environment ran,
    so the stated exit code is 1; [report] prints [a: FAIL code 1],
    [b: OK], [evaluation failed] and returns -1. *)
Lemma report_two_envs_not_one :
  map Common.message (fst (Common.report runs_a_fails_b_passes)) =
    ["  a: FAIL code 1"; "  b: OK"; "  evaluation failed :("] /\
  snd (Common.report runs_a_fails_b_passes) = -1 /\
  ~ Common.stated_exit_code runs_a_fails_b_passes
      (snd (Common.report runs_a_fails_b_passes)).
Proof.
  split; [reflexivity|]. split; [reflexivity|].
  intros [_ H].
  assert (Hex : Exists (fun run => Common.skipped run = false /\
                                   Common.code run <> 0)
                       runs_a_fails_b_passes).
  { apply Exists_cons_hd. split; [reflexivity | discriminate]. }
  specialize (H Hex). vm_compute in H. discriminate.
Qed.

(** C1 (amended): [report] returns 0 when every environment's code is 0;
    otherwise (some code is not 0, whether or not that environment is
    flagged skipped) it returns that environment's exact code when the
    run has exactly one environment, and -1 in every other case. *)
Theorem report_exit_code (runs : list Common.ToxEnvRunResult) :
  (Forall (fun run => Common.code run = 0) runs ->
   snd (Common.report runs) = 0) /\
  (~ Forall (fun run => Common.code run = 0) runs ->
   (forall run, runs = [run] -> snd (Common.report runs) = Common.code run) /\
   (length runs <> 1%nat -> snd (Common.report runs) = -1)).
Proof.
  rewrite report_code. rewrite <- forallb_run_ok.
  destruct (forallb Common.run_ok runs); split.
  - reflexivity.
  - intros H. exfalso. now apply H.
  - discriminate.
  - intros _. split.
    + intros run ->. reflexivity.
    + intros Hlen. destruct runs as [|r0 [|r1 rest]]; simpl in *;
        [reflexivity | now contradiction Hlen | reflexivity].
Qed.

(** The statement above on a single failing environment (its code 17
    is propagated) and on the two environments [a], [b] (exit code -1). *)
Lemma report_exit_code_witness :
  snd (Common.report
         [ {| Common.name := "a"; Common.skipped := false; Common.code := 17;
              Common.outcomes := []; Common.duration := 1 |} ]) = 17 /\
  snd (Common.report runs_a_fails_b_passes) = -1.
Proof.
  split.
  - refine (proj1 (proj2 (report_exit_code _) _) _ eq_refl).
    intros H. apply Forall_inv in H. discriminate.
  - refine (proj2 (proj2 (report_exit_code runs_a_fails_b_passes) _) _).
    + intros H. apply Forall_inv in H. discriminate.
    + discriminate.
Defined.

(* ================================================================== *)
(** * Ready batches: [ready_to_run_envs] *)
(* ================================================================== *)
Section SchedulerFacts.
Import Common.

Lemma is_ready_spec todo completed env :
  Common.is_ready todo completed env = true <->
  exists depends, dict_get env todo = Some depends /\ depends ⊆ completed.
Proof.
  unfold is_ready. destruct (dict_get env todo) as [depends|].
  - rewrite bool_decide_eq_true. split.
    + intros Hempty. exists depends. split; [reflexivity | set_solver].
    + intros (depends' & Heq & Hsub). injection Heq as Heq. subst depends'.
      apply set_eq. intros x. rewrite elem_of_difference, elem_of_empty.
      split; [intros [Hx Hn]; apply Hn, Hsub, Hx | intros []].
  - split; [discriminate | intros (depends & Heq & _); discriminate].
Qed.

Lemma filter_none_ready todo completed (order : list string) :
  Forall (fun env => Common.is_ready todo completed env = false) order ->
  List.filter (Common.is_ready todo completed) order = [].
Proof.
  induction 1 as [|env order Henv _ IH]; [reflexivity|].
  cbn [List.filter]. now rewrite Henv.
Qed.

Lemma collect_batch_partition todo completed order ready_to_run new_order :
  Forall (fun env => is_Some (dict_get env todo)) order ->
  collect_batch todo completed order ready_to_run new_order =
  Ok (ready_to_run ++ List.filter (Common.is_ready todo completed) order,
      new_order
        ++ List.filter (fun env => negb (Common.is_ready todo completed env)) order).
Proof.
  revert ready_to_run new_order.
  induction order as [|env order IH]; intros ready_to_run new_order Hkeys.
  - simpl. now rewrite !app_nil_r.
  - apply Forall_cons in Hkeys as [[depends Hget] Hkeys].
    assert (Hr : Common.is_ready todo completed env
                 = bool_decide (depends ∖ completed = ∅)).
    { unfold is_ready. now rewrite Hget. }
    cbn [collect_batch List.filter]. rewrite Hget, Hr.
    destruct (bool_decide (depends ∖ completed = ∅)); cbn [negb];
      rewrite IH by assumption; now rewrite <- app_assoc.
Qed.

Lemma collect_batch_ready todo completed order ready_to_run new_order
      ready' order' :
  collect_batch todo completed order ready_to_run new_order
    = Ok (ready', order') ->
  forall env, env ∈ ready' ->
              env ∈ ready_to_run \/ Common.is_ready todo completed env = true.
Proof.
  revert ready_to_run new_order.
  induction order as [|e order IH]; intros ready_to_run new_order; simpl.
  - intros [= <- <-] env Hin. now left.
  - destruct (dict_get e todo) as [depends|] eqn:Hget; [|discriminate].
    destruct (bool_decide (depends ∖ completed = ∅)) eqn:Hdec; intros H env Hin.
    + destruct (IH _ _ H env Hin) as [Hin'|Hr]; [|now right].
      apply elem_of_app in Hin' as [Hin'|Hin']; [now left|].
      apply list_elem_of_singleton in Hin' as ->. right.
      unfold is_ready. now rewrite Hget.
    + exact (IH _ _ H env Hin).
Qed.

Variable sort : dict string (gset string) -> res (list string).
Variable state : State.

End SchedulerFacts.

(** C4 (as stated, refuted): over [x, y, w, z] with nothing completed the
    topological order is [x, y, w, z]; stopping at the first blocked
    environment ([y]) would give the batch [x], but the first batch the
    generator yields is [x, w]: the scan passes over [y] and goes on. *)
Lemma ready_batch_passes_blocked_env :
  Common.run_order Common.stable_topological_sort chain_state chain_to_run
    = Ok (chain_to_run, Common.build_todo chain_state chain_to_run) /\
  Common.batch_until_blocked (Common.build_todo chain_state chain_to_run)
                             ∅ chain_to_run = ["x"] /\
  fst (Common.next Common.stable_topological_sort chain_state ∅
                   (Common.Created chain_to_run))
    = Common.Yield ["x"; "w"] /\
  fst (Common.next Common.stable_topological_sort chain_state ∅
                   (Common.Created chain_to_run))
    <> Common.Yield
         (Common.batch_until_blocked
            (Common.build_todo chain_state chain_to_run) ∅ chain_to_run).
Proof. vm_compute. repeat split; congruence. Qed.

(** C4 (amended): whenever the generator still has a non-empty order
    whose environments all have an entry in [todo], [next] returns at
    once with the batch made of every environment of the remaining order
    (in that order, not only a leading run of them) whose dependencies
    are all in [completed]; the others stay, in order, for later calls;
    and if no environment is ready the batch is empty. *)
Theorem ready_batch_is_all_ready
        (sort : dict string (gset string) -> res (list string))
        (state : Common.State) (g : Common.Generator)
        (completed : gset string)
        (order : list string) (todo : dict string (gset string)) :
  Common.pending_order sort state g = Some (order, todo) ->
  order <> [] ->
  Forall (fun env => is_Some (dict_get env todo)) order ->
  Common.next sort state completed g =
    (Common.Yield (List.filter (Common.is_ready todo completed) order),
     Common.Suspended
       (List.filter (fun env => negb (Common.is_ready todo completed env)) order)
       todo)
  /\ (Forall (fun env => Common.is_ready todo completed env = false) order ->
      fst (Common.next sort state completed g) = Common.Yield []).
Proof.
  intros Hpend Hne Hkeys.
  assert (Hresume : Common.next sort state completed g
                    = Common.resume todo completed order).
  { destruct g as [to_run|order0 todo0|]; simpl in *.
    - destruct (Common.run_order sort state to_run) as [[o t]|e];
        [|discriminate]. now injection Hpend as -> ->.
    - now injection Hpend as -> ->.
    - discriminate. }
  rewrite Hresume. unfold Common.resume.
  destruct order as [|env order]; [now contradiction Hne|].
  rewrite (collect_batch_partition _ _ _ _ _ Hkeys). simpl app.
  split; [reflexivity|].
  intros Hnone. cbn [fst]. f_equal.
  exact (filter_none_ready _ _ _ Hnone).
Qed.

(** The statement above at the chain [x, y, w, z] with [x] completed:
    the generator, suspended on [y, z], yields [y] and keeps [z]. *)
Lemma ready_batch_is_all_ready_witness :
  Common.next Common.stable_topological_sort chain_state {[ "x" ]}
    (Common.Suspended ["y"; "z"] (Common.build_todo chain_state chain_to_run))
  = (Common.Yield ["y"],
     Common.Suspended ["z"] (Common.build_todo chain_state chain_to_run)).
Proof.
  refine (proj1 (ready_batch_is_all_ready
                   Common.stable_topological_sort chain_state
                   (Common.Suspended ["y"; "z"]
                      (Common.build_todo chain_state chain_to_run))
                   {[ "x" ]} ["y"; "z"]
                   (Common.build_todo chain_state chain_to_run) _ _ _)).
  - reflexivity.
  - discriminate.
  - repeat constructor; vm_compute; eauto.
Defined.

(* ================================================================== *)
(** * The driver loop *)
(* ================================================================== *)
Section DriverFacts.
Import Common.
Variable sort : dict string (gset string) -> res (list string).
Variable state : State.
Variable MISS_DURATION : Q.
Variable to_run_list : list string.
Variable workers : option nat.

(** Every entry of the graph is the declared dependencies of its
    environment, restricted to the universe. *)
Lemma build_todo_lookup (to_run : list string) env depends_in :
  dict_get env (build_todo state to_run) = Some depends_in ->
  exists depends,
    tox_env state env = Some depends /\
    depends_in = list_to_set to_run ∩ list_to_set depends.
Proof.
  unfold build_todo. generalize (list_to_set to_run : gset string) as U.
  intros U.
  assert (Hgen : forall l (acc : dict string (gset string)),
             (forall e s, dict_get e acc = Some s ->
                          exists depends, tox_env state e = Some depends /\
                                          s = U ∩ list_to_set depends) ->
             forall e s,
               dict_get e
                 (fold_left
                    (fun todo env =>
                       match tox_env state env with
                       | None => todo
                       | Some depends =>
                           dict_set env (U ∩ list_to_set depends) todo
                       end) l acc) = Some s ->
               exists depends, tox_env state e = Some depends /\
                               s = U ∩ list_to_set depends).
  { induction l as [|x l IH]; intros acc Hacc e s; simpl; [apply Hacc|].
    apply IH. intros e' s'.
    destruct (tox_env state x) as [dx|] eqn:Hx; [|apply Hacc].
    rewrite dict_get_set_any. destruct (decide (e' = x)) as [->|]; [|apply Hacc].
    intros [= <-]. eauto. }
  apply Hgen. intros e s. discriminate.
Qed.

Lemma resume_inv todo completed order produced g' :
  todo = build_todo state to_run_list ->
  resume todo completed order = (produced, g') ->
  (forall order' todo', g' = Suspended order' todo' ->
                        todo' = build_todo state to_run_list) /\
  (forall to_run, g' <> Created to_run) /\
  (forall batch, produced = Yield batch ->
                 forall env, env ∈ batch ->
                             is_ready (build_todo state to_run_list)
                                      completed env = true).
Proof.
  intros -> Hres. unfold resume in Hres.
  destruct order as [|env order].
  { injection Hres as <- <-. repeat split; intros; discriminate. }
  destruct (collect_batch _ completed (env :: order) [] [])
    as [[ready new_order]|e] eqn:Hbatch.
  - injection Hres as <- <-. repeat split.
    + now intros ? ? [= _ <-].
    + discriminate.
    + intros batch [= <-] e He.
      destruct (collect_batch_ready _ _ _ _ _ _ _ Hbatch e He) as [Hin|Hr];
        [|exact Hr].
      now apply elem_of_nil in Hin.
  - injection Hres as <- <-. repeat split; intros; discriminate.
Qed.

Lemma next_inv completed g produced g' :
  (forall order todo, g = Suspended order todo ->
                      todo = build_todo state to_run_list) ->
  (forall to_run, g = Created to_run -> to_run = to_run_list) ->
  next sort state completed g = (produced, g') ->
  (forall order' todo', g' = Suspended order' todo' ->
                        todo' = build_todo state to_run_list) /\
  (forall to_run, g' <> Created to_run) /\
  (forall batch, produced = Yield batch ->
                 forall env, env ∈ batch ->
                             is_ready (build_todo state to_run_list)
                                      completed env = true).
Proof.
  intros Hsusp Hcreated Hnext. destruct g as [to_run|order todo|]; simpl in Hnext.
  - rewrite (Hcreated to_run eq_refl) in Hnext. unfold run_order in Hnext.
    destruct (sort (build_todo state to_run_list)) as [order|e].
    + exact (resume_inv _ _ _ _ _ eq_refl Hnext).
    + injection Hnext as <- <-. repeat split; intros; discriminate.
  - exact (resume_inv _ _ _ _ _ (Hsusp _ _ eq_refl) Hnext).
  - injection Hnext as <- <-. repeat split; intros; discriminate.
Qed.

Lemma driver_inv_start :
  driver_inv state to_run_list (start to_run_list workers).
Proof.
  unfold driver_inv, start; simpl. repeat split.
  - discriminate.
  - now intros ? [= ->].
  - intros env_list Hphase env Hin.
    destruct (default (length to_run_list) workers =? 0)%nat;
      [discriminate|].
    injection Hphase as <-. now apply elem_of_nil in Hin.
Qed.

Lemma driver_inv_step d a d' :
  driver_inv state to_run_list d ->
  step sort state MISS_DURATION d a = Some d' ->
  driver_inv state to_run_list d'.
Proof.
  intros (Hsusp & Hcreated & Hqueue) Hstep.
  unfold step in Hstep.
  destruct a as [| i | | i | i | i result | i e0]; destruct (phase d) as [env_list| |result'| |e] eqn:Hphase;
    try discriminate.
  all: repeat match type of Hstep with
         | match ?x with _ => _ end = _ => destruct x eqn:?; try discriminate
         | (if ?x then _ else _) = _ => destruct x eqn:?; try discriminate
         end.
  all: try (injection Hstep as <-).
  all: try (unfold driver_inv, set_future, collect; simpl; rewrite ?Hphase;
            repeat split; [exact Hsusp | exact Hcreated | (try discriminate); try exact Hqueue]).
  - (* one iteration of the [for] loop *)
    assert (Hrest : forall env, env ∈ l ->
              is_ready (build_todo state to_run_list) (completed d) env
              = true).
    { intros env Hin. apply (Hqueue _ eq_refl). now apply elem_of_cons; right. }
    unfold driver_inv, queue.
    destruct (tox_env state s); [destruct (interrupt d)|]; simpl;
      (split; [exact Hsusp | split; [exact Hcreated |]]);
      try discriminate; now intros ? [= <-].
  - (* the next batch is pulled *)
    unfold driver_inv, pull.
    destruct (next sort state (completed d) (generator d))
      as [produced g'] eqn:Hnext.
    destruct (next_inv _ _ _ _ Hsusp Hcreated Hnext) as (Hs & Hc & Hb).
    destruct produced as [batch| |e]; simpl;
      (split; [exact Hs | split; [intros ? Heq; now destruct (Hc _ Heq) |]]).
    + destruct batch as [|env batch], (future_to_env d);
        try discriminate; intros ? [= <-]; now apply Hb.
    + destruct (future_to_env d); try discriminate.
      intros ? [= <-] env Hin. now apply elem_of_nil in Hin.
    + discriminate.
Qed.

Lemma reachable_inv d :
  reachable sort state MISS_DURATION to_run_list workers d ->
  driver_inv state to_run_list d.
Proof.
  induction 1 as [|d a d' _ IH Hstep].
  - apply driver_inv_start.
  - exact (driver_inv_step _ _ _ IH Hstep).
Qed.

(** A [Drive] move that records [Submit env] is an iteration of the
    [for] loop on [env] with the interrupt flag down. *)
Lemma submit_is_queue d d' env :
  step sort state MISS_DURATION d Drive = Some d' ->
  events d' = events d ++ [Submit env] ->
  exists rest depends,
    phase d = Queueing (env :: rest) /\ interrupt d = false /\
    tox_env state env = Some depends /\
    future_to_env d' = future_to_env d ++ [(Pending, env)].
Proof.
  unfold step. intros Hstep Hev.
  assert (Hnil : forall (l : list Event), l = l ++ [Submit env] -> False).
  { intros l Hl. apply (f_equal (@length Event)) in Hl.
    rewrite length_app in Hl. simpl in Hl. lia. }
  destruct (phase d) as [[|e rest]| |result| |ex]; try discriminate.
  - injection Hstep as <-. simpl in Hev. now apply Hnil in Hev.
  - injection Hstep as <-. unfold queue in *.
    destruct (tox_env state e) as [depends|] eqn:He.
    + destruct (interrupt d) eqn:Hi; simpl in *.
      * apply app_inv_head in Hev. discriminate.
      * apply app_inv_head in Hev. injection Hev as ->. eauto 10.
    + simpl in Hev. now apply Hnil in Hev.
  - destruct (future_to_env d); [|discriminate].
    injection Hstep as <-. simpl in Hev. now apply Hnil in Hev.
  - injection Hstep as <-. unfold pull in Hev.
    destruct (next sort state (completed d) (generator d)) as [produced g'].
    destruct produced as [batch| |e]; simpl in Hev;
      try (now apply Hnil in Hev);
      destruct result; simpl in Hev;
      rewrite ?app_nil_r in Hev;
      try (now apply Hnil in Hev);
      apply app_inv_head in Hev; discriminate.
Qed.

Lemma run_reachable schedule d d' :
  reachable sort state MISS_DURATION to_run_list workers d ->
  run sort state MISS_DURATION d schedule = Some d' ->
  reachable sort state MISS_DURATION to_run_list workers d'.
Proof.
  revert d. induction schedule as [|a schedule IH]; intros d Hd; simpl.
  - now intros [= <-].
  - destruct (step sort state MISS_DURATION d a) as [d1|] eqn:Hstep;
      [|discriminate].
    apply IH. exact (reachable_step _ _ _ _ _ _ _ _ Hd Hstep).
Qed.

(** An environment reached by the [for] loop was constructed before. *)
Lemma queued_env_constructed d env rest :
  reachable sort state MISS_DURATION to_run_list workers d ->
  phase d = Queueing (env :: rest) ->
  is_Some (tox_env state env).
Proof.
  intros Hreach Hphase.
  destruct (reachable_inv _ Hreach) as (_ & _ & Hqueue).
  specialize (Hqueue _ Hphase env (list_elem_of_here _ _)).
  apply is_ready_spec in Hqueue as (depends_in & Hget & _).
  apply build_todo_lookup in Hget as (depends & Henv & _).
  rewrite Henv. eauto.
Qed.

End DriverFacts.

(** C2: in every state the driver can reach over any universe, any
    dependency declaration and any topological order, the move that
    submits the worker of [env] to the pool is made with the interrupt
    flag down and with every name of [env]'s [depends] that belongs to
    the universe already in [completed].  (With the flag up no worker is
    submitted at all, so the exception for an interrupted run is not
    needed.) *)
Theorem worker_submitted_after_depends_completed
        (sort : dict string (gset string) -> res (list string))
        (state : Common.State) (MISS_DURATION : Q)
        (to_run_list : list string) (workers : option nat)
        (d d' : Common.Driver) (env : string) :
  Common.reachable sort state MISS_DURATION to_run_list workers d ->
  Common.step sort state MISS_DURATION d Common.Drive = Some d' ->
  Common.events d' = Common.events d ++ [Common.Submit env] ->
  exists depends,
    Common.tox_env state env = Some depends /\
    (forall dep, dep ∈ depends -> dep ∈ to_run_list ->
                 dep ∈ Common.completed d) /\
    Common.interrupt d = false.
Proof.
  intros Hreach Hstep Hev.
  destruct (submit_is_queue _ _ _ _ _ _ Hstep Hev)
    as (rest & depends & Hphase & Hint & Henv & _).
  destruct (reachable_inv _ _ _ _ _ _ Hreach) as (_ & _ & Hqueue).
  specialize (Hqueue _ Hphase env (list_elem_of_here _ _)).
  apply is_ready_spec in Hqueue as (depends_in & Hget & Hsub).
  apply build_todo_lookup in Hget as (depends' & Henv' & ->).
  rewrite Henv in Henv'. injection Henv' as <-.
  exists depends. split; [assumption|]. split; [|assumption].
  intros dep Hdep Hin. apply Hsub.
  apply elem_of_intersection. split; now apply elem_of_list_to_set.
Qed.

(** The statement above on the chain: [y], which depends on [x], is
    submitted once [x] is in [completed]. *)
Lemma worker_submitted_after_depends_completed_witness :
  exists depends,
    Common.tox_env chain_state "y" = Some depends /\
    (forall dep, dep ∈ depends -> dep ∈ chain_to_run ->
                 dep ∈ Common.completed chain_before_y) /\
    Common.interrupt chain_before_y = false.
Proof.
  apply (worker_submitted_after_depends_completed
           Common.stable_topological_sort chain_state 0 chain_to_run None
           chain_before_y
           (Common.queue chain_state 0 chain_before_y "y" [])
           "y").
  - apply (run_reachable _ _ _ _ _ chain_schedule
                         (Common.start chain_to_run None)).
    + apply Common.reachable_start.
    + vm_compute. reflexivity.
  - vm_compute. reflexivity.
  - vm_compute. reflexivity.
Defined.

(** C5: in every reachable state, (1) when the [for] loop reaches an
    environment while the interrupt flag is set, the driver calls its
    teardown, records no submission, and puts in [future_to_env] a
    future already holding the result [name = env, skipped = False,
    code = -2, outcomes = []]; (2) a finished future that is collected
    has exactly its result appended to [results]; (3) when the
    collected future was cancelled, the driver calls the environment's
    teardown and appends the result [code = -3, outcomes = []] in its
    name. *)
Theorem interrupted_and_cancelled_results
        (sort : dict string (gset string) -> res (list string))
        (state : Common.State) (MISS_DURATION : Q)
        (to_run_list : list string) (workers : option nat)
        (d : Common.Driver) :
  Common.reachable sort state MISS_DURATION to_run_list workers d ->
  (forall env rest,
      Common.phase d = Common.Queueing (env :: rest) ->
      Common.interrupt d = true ->
      exists d',
        Common.step sort state MISS_DURATION d Common.Drive = Some d' /\
        Common.future_to_env d' =
          Common.future_to_env d
            ++ [(Common.Finished
                   {| Common.name := env; Common.skipped := false;
                      Common.code := -2; Common.outcomes := [];
                      Common.duration := MISS_DURATION |}, env)] /\
        Common.events d' = Common.events d ++ [Common.Teardown env] /\
        Common.phase d' = Common.Queueing rest) /\
  (forall i result env,
      Common.phase d = Common.Waiting ->
      Common.future_to_env d !! i = Some (Common.Finished result, env) ->
      exists d',
        Common.step sort state MISS_DURATION d (Common.Complete i) = Some d' /\
        Common.results d' = Common.results d ++ [result] /\
        Common.events d' = Common.events d) /\
  (forall i env,
      Common.phase d = Common.Waiting ->
      Common.future_to_env d !! i = Some (Common.Cancelled, env) ->
      exists d',
        Common.step sort state MISS_DURATION d (Common.Complete i) = Some d' /\
        Common.results d' =
          Common.results d
            ++ [{| Common.name := env; Common.skipped := false;
                   Common.code := -3; Common.outcomes := [];
                   Common.duration := MISS_DURATION |}] /\
        Common.completed d' = Common.completed d ∪ {[ env ]} /\
        Common.events d' = Common.events d ++ [Common.Teardown env]).
Proof.
  intros Hreach. split; [|split].
  - intros env rest Hphase Hint.
    destruct (queued_env_constructed _ _ _ _ _ _ _ _ Hreach Hphase)
      as [depends Henv].
    exists (Common.queue state MISS_DURATION d env rest).
    unfold Common.step, Common.queue. rewrite Hphase, Henv, Hint.
    repeat split.
  - intros i result env Hphase Hget.
    exists (Common.collect d i result []).
    unfold Common.step. rewrite Hphase, Hget. simpl.
    rewrite app_nil_r. repeat split.
  - intros i env Hphase Hget.
    exists (Common.collect d i (Common.missed MISS_DURATION env (-3))
                           [Common.Teardown env]).
    unfold Common.step. rewrite Hphase, Hget. repeat split.
Qed.

(** The statement above on the interrupted chain: [y] is given the
    result with code -2 without a submission. *)
Lemma interrupted_and_cancelled_results_witness :
  exists d',
    Common.step Common.stable_topological_sort chain_state 0
                chain_interrupted Common.Drive = Some d' /\
    Common.future_to_env d' =
      Common.future_to_env chain_interrupted
        ++ [(Common.Finished
               {| Common.name := "y"; Common.skipped := false;
                  Common.code := -2; Common.outcomes := [];
                  Common.duration := 0 |}, "y")] /\
    Common.events d' =
      Common.events chain_interrupted ++ [Common.Teardown "y"] /\
    Common.phase d' = Common.Queueing [].
Proof.
  refine (proj1 (interrupted_and_cancelled_results
                   Common.stable_topological_sort chain_state 0
                   chain_to_run None chain_interrupted _) "y" [] _ _).
  - apply (run_reachable _ _ _ _ _ (chain_schedule ++ [Common.SetInterrupt])
                         (Common.start chain_to_run None)).
    + apply Common.reachable_start.
    + vm_compute. reflexivity.
  - vm_compute. reflexivity.
  - vm_compute. reflexivity.
Defined.

(* ================================================================== *)
(** * Local sub-process: [cmd], spawn failure, interrupt *)
(* ================================================================== *)
Section LocalSubProcessFacts.
Import Api LocalSubProcess.

Lemma cmd_of_cached which self cmd self' :
  cmd_of which self = (Ok cmd, self') -> _cmd self' = Some cmd.
Proof.
  unfold cmd_of. destruct (_cmd self) as [c|] eqn:Hc.
  - intros [= <- <-]. exact Hc.
  - destruct (Api.cmd (request self)) as [|cmd0 cmd_tail]; [discriminate|].
    destruct (env (request self) !! "PATH"); [|discriminate].
    intros [= <- <-]. reflexivity.
Qed.

(** On a failed status every call of the [with] block does nothing. *)
Lemma with_body_failed_status WAIT_GENERAL exit_code body self :
  with_body WAIT_GENERAL
            (LocalSubprocessExecuteFailedStatus exit_code) body self
  = (Ok tt, self).
Proof. induction body as [|c body IH]; simpl; [reflexivity | exact IH]. Qed.

(** [__enter__] when the spawn raises [OSError]: a failed status that
    carries the [errno]; the instance only caches the command. *)
Lemma enter_spawn_failure spawn which request out err
      path cmd0 cmd_tail errno :
  env request !! "PATH" = Some path ->
  Api.cmd request = cmd0 :: cmd_tail ->
  spawn (match which cmd0 path with
         | None => Api.cmd request
         | Some executable => executable :: cmd_tail
         end) request = OSError errno ->
  enter spawn which (init request out err)
  = (Ok (LocalSubprocessExecuteFailedStatus (Some errno)),
     with_cmd (init request out err)
              (match which cmd0 path with
               | None => Api.cmd request
               | Some executable => executable :: cmd_tail
               end)).
Proof.
  intros Hpath Hcmd Hspawn. unfold enter, cmd_of.
  cbn [init _cmd LocalSubProcess.request]. rewrite Hpath.
  destruct (Api.cmd request) as [|c0 ct] eqn:Hc; [discriminate|].
  injection Hcmd as -> ->.
  cbn [with_cmd init LocalSubProcess.request]. now rewrite Hspawn.
Qed.

End LocalSubProcessFacts.

(** C9: (1) on an instance that has no cached command and whose request
    has no ["PATH"] in its environment, reading [cmd] raises a lookup
    error ([IndexError] for an empty [argv], else [KeyError] on
    ["PATH"]), returns no command and caches nothing; (2) once [cmd] has
    returned a command, every later read returns that same command,
    whatever the file system has become, and changes nothing. *)
Theorem cmd_needs_PATH_and_is_cached
        (which which' : string -> string -> option string) :
  (forall self,
      LocalSubProcess._cmd self = None ->
      Api.env (LocalSubProcess.request self) !! "PATH" = None ->
      exists e, LocalSubProcess.cmd_of which self = (Raise e, self) /\
                is_LookupError e = true) /\
  (forall self cmd self',
      LocalSubProcess.cmd_of which self = (Ok cmd, self') ->
      LocalSubProcess.cmd_of which' self' = (Ok cmd, self')).
Proof.
  split.
  - intros self Hnone Hpath. unfold LocalSubProcess.cmd_of.
    rewrite Hnone, Hpath.
    destruct (Api.cmd (LocalSubProcess.request self)) as [|cmd0 cmd_tail].
    + exists IndexError. split; reflexivity.
    + exists KeyError. split; reflexivity.
  - intros self cmd self' Hcmd.
    apply cmd_of_cached in Hcmd. unfold LocalSubProcess.cmd_of.
    now rewrite Hcmd.
Qed.

(** The statement above on a request without [PATH] and on a request
    whose program is resolved at the first read only. *)
Lemma cmd_needs_PATH_and_is_cached_witness :
  (exists e,
      LocalSubProcess.cmd_of (fun _ _ => None)
        (LocalSubProcess.init pathless_request
           {| LocalSubProcess.content := "" |}
           {| LocalSubProcess.content := "" |})
      = (Raise e,
         LocalSubProcess.init pathless_request
           {| LocalSubProcess.content := "" |}
           {| LocalSubProcess.content := "" |}) /\
      is_LookupError e = true) /\
  LocalSubProcess.cmd_of (fun _ _ => Some "/opt/other")
    (LocalSubProcess.with_cmd
       (LocalSubProcess.init missing_request
          {| LocalSubProcess.content := "" |}
          {| LocalSubProcess.content := "" |})
       ["sys-must-be-missing"])
  = (Ok ["sys-must-be-missing"],
     LocalSubProcess.with_cmd
       (LocalSubProcess.init missing_request
          {| LocalSubProcess.content := "" |}
          {| LocalSubProcess.content := "" |})
       ["sys-must-be-missing"]).
Proof.
  split.
  - apply (proj1 (cmd_needs_PATH_and_is_cached (fun _ _ => None)
                                               (fun _ _ => None))).
    + reflexivity.
    + vm_compute. reflexivity.
  - apply (proj2 (cmd_needs_PATH_and_is_cached
                    (fun _ _ => None) (fun _ _ => Some "/opt/other"))
                 (LocalSubProcess.init missing_request
                    {| LocalSubProcess.content := "" |}
                    {| LocalSubProcess.content := "" |})).
    vm_compute. reflexivity.
Defined.

(** C6: when the environment has a [PATH], [argv] is not empty and
    spawning the resolved command raises an [OSError] with a non-zero
    [errno], [Execute.call] completes (whatever the caller does with the
    status, absent a keyboard interrupt) with an [Outcome] whose
    [exit_code] is that [errno], whose [out] and [err] are empty, whose
    truth value is false, and whose [cmd] is the original [argv] when
    the look-up on [PATH] found no executable. *)
Theorem spawn_failure_outcome
        (WAIT_GENERAL : Q)
        (spawn : list string -> Api.ExecuteRequest -> LocalSubProcess.Spawn)
        (which : string -> string -> option string)
        (request : Api.ExecuteRequest) (show : bool) (start end_ : Q)
        (body : list LocalSubProcess.StatusCall)
        (path cmd0 : string) (cmd_tail : list string) (errno : Z) :
  Api.env request !! "PATH" = Some path ->
  Api.cmd request = cmd0 :: cmd_tail ->
  spawn (match which cmd0 path with
         | None => Api.cmd request
         | Some executable => executable :: cmd_tail
         end) request = LocalSubProcess.OSError errno ->
  errno <> 0 ->
  exists outcome,
    LocalSubProcess.call WAIT_GENERAL spawn which request show start end_
                         body false
      = LocalSubProcess.Completed outcome /\
    Api.exit_code outcome = Some errno /\
    Api.out outcome = "" /\ Api.err outcome = "" /\
    Api.bool_ outcome = false /\
    (which cmd0 path = None -> Api.resolved_cmd outcome = Api.cmd request).
Proof.
  intros Hpath Hcmd Hspawn Herrno.
  unfold LocalSubProcess.call.
  rewrite (enter_spawn_failure _ _ _ _ _ _ _ _ _ Hpath Hcmd Hspawn).
  rewrite with_body_failed_status.
  cbn [LocalSubProcess.exit_ LocalSubProcess.process
       LocalSubProcess.with_cmd LocalSubProcess.init
       LocalSubProcess.cmd_of LocalSubProcess._cmd
       LocalSubProcess.status_exit_code LocalSubProcess._out
       LocalSubProcess._err LocalSubProcess.text LocalSubProcess.content].
  eexists. split; [reflexivity|].
  cbn [Api.exit_code Api.out Api.err Api.resolved_cmd].
  split; [reflexivity|]. split; [reflexivity|]. split; [reflexivity|].
  split.
  - unfold Api.bool_, Api.py_eq_opt, Api.OK; simpl.
    now apply Z.eqb_neq.
  - intros ->. reflexivity.
Qed.

(** The statement above on the missing program, with [errno] 2
    ([ENOENT]). *)
Lemma spawn_failure_outcome_witness :
  exists outcome,
    LocalSubProcess.call 1 (fun _ _ => LocalSubProcess.OSError 2)
                         (fun _ _ => None) missing_request false 0 1
                         [LocalSubProcess.CallWait None] false
      = LocalSubProcess.Completed outcome /\
    Api.exit_code outcome = Some 2 /\
    Api.out outcome = "" /\ Api.err outcome = "" /\
    Api.bool_ outcome = false /\
    ((fun _ _ => None) "sys-must-be-missing" "/usr/bin" = @None string ->
     Api.resolved_cmd outcome = Api.cmd missing_request).
Proof.
  apply (spawn_failure_outcome 1 (fun _ _ => LocalSubProcess.OSError 2)
           (fun _ _ => None) missing_request false 0 1
           [LocalSubProcess.CallWait None] "/usr/bin"
           "sys-must-be-missing" [] 2).
  - vm_compute. reflexivity.
  - reflexivity.
  - reflexivity.
  - discriminate.
Defined.


(** C3 (the code departs from it): the wait after terminate is given
    [WAIT_INTERRUPT] (0.3 s) and [WAIT_TERMINATE] (0.2 s) is never used.
    For the child that exits 0.25 s after terminate, [interrupt] waits
    it out and returns its status 3 without a kill, where the cascade
    with the 200 ms budget kills it and returns -9. *)
Theorem interrupt_waits_300ms_after_terminate :
  fst (LocalSubProcess.interrupt running_slow_to_terminate)
    = LocalSubProcess.Returned 3 /\
  LocalSubProcess.signals_received (snd (LocalSubProcess.interrupt running_slow_to_terminate))
    = [LocalSubProcess.SIGINT; LocalSubProcess.SIGTERM] /\
  fst (LocalSubProcess.interrupt_as_specified running_slow_to_terminate)
    = LocalSubProcess.Returned (-9) /\
  LocalSubProcess.signals_received
    (snd (LocalSubProcess.interrupt_as_specified running_slow_to_terminate))
    = [LocalSubProcess.SIGINT; LocalSubProcess.SIGTERM;
       LocalSubProcess.SIGKILL].
Proof. vm_compute. repeat split. Qed.


(* ================================================================== *)
(** * Spinner: the rendered frame *)
(* ================================================================== *)
Section SpinnerFrame.
Import Spinner.

Lemma one_line_app (a b : str) : one_line a -> one_line b -> one_line (a ++ b).
Proof. unfold one_line. intros Ha Hb Hin. apply in_app_or in Hin. tauto. Qed.

Lemma one_line_take n (a : str) : one_line a -> one_line (take n a).
Proof.
  unfold one_line. intros Ha Hin. apply Ha.
  rewrite <- (take_drop n a). apply in_or_app. now left.
Qed.

Lemma one_line_join (sep : str) (parts : list str) :
  one_line sep -> Forall one_line parts -> one_line (join sep parts).
Proof.
  intros Hsep. induction 1 as [|part parts Hpart Hparts IH]; simpl.
  - intros [].
  - destruct parts as [|part' parts']; [exact Hpart|].
    apply one_line_app; [exact Hpart|]. now apply one_line_app.
Qed.

Lemma pretty_N_char_one_line (x : N) : N_of_ascii (pretty_N_char x) <> 10%N.
Proof.
  unfold pretty_N_char.
  repeat (match goal with
          | |- context [match ?y with _ => _ end] => destruct y
          end); discriminate.
Qed.

Lemma pretty_N_go_one_line (x : N) (acc : string) :
  one_line (lit acc) -> one_line (lit (pretty_N_go x acc)).
Proof.
  revert acc. induction x as [x IH] using (well_founded_induction N.lt_wf_0).
  intros acc Hacc. destruct (decide (x = 0%N)) as [->|Hx].
  - now rewrite pretty_N_go_0.
  - rewrite pretty_N_go_step by lia. apply IH.
    + apply N.div_lt; lia.
    + unfold one_line, lit in *. simpl. intros [Hc|Hin]; [|tauto].
      now apply pretty_N_char_one_line in Hc.
Qed.

Lemma pretty_nat_one_line (n : nat) : one_line (lit (pretty n)).
Proof.
  unfold pretty, pretty_nat, pretty, pretty_N.
  destruct (decide (N.of_nat n = 0%N)).
  - unfold one_line; simpl. intros [H|[]]. discriminate.
  - apply pretty_N_go_one_line. intros [].
Qed.

Lemma frames_one_code_point (index : nat) (glyph : str) :
  frames !! index = Some glyph -> length glyph = 1%nat /\ one_line glyph.
Proof.
  unfold frames. intros H.
  do 10 (destruct index as [|index];
         [injection H as <-; split;
          [reflexivity | intros [Hc|[]]; discriminate]|]).
  discriminate.
Qed.

End SpinnerFrame.

(** C7 (as stated, refuted): with [a] and [b] running the frame reads
    [<glyph> [2] a | b]: the names come after their count and are joined
    by [" | "], no comma occurs in the line; and with one name of 130
    letters the frame is 121 code points long, one more than
    [max_width]. *)
Lemma frame_not_comma_joined_nor_within_max_width :
  fst (Spinner.frame spinner_a_b)
    = Ok (0x280B%N :: Spinner.lit " [2] a | b") /\
  ~ In 44%N (0x280B%N :: Spinner.lit " [2] a | b") /\
  (exists line, fst (Spinner.frame spinner_long_name) = Ok line /\
                length line = 121%nat /\
                (Spinner.max_width < length line)%nat).
Proof.
  split; [vm_compute; reflexivity|]. split.
  - vm_compute. intuition discriminate.
  - eexists. split; [vm_compute; reflexivity|].
    split; [reflexivity | vm_compute; lia].
Qed.

(** C7 (amended): a render at a valid frame index returns the glyph at
    that index (one code point), a space and a text, and moves the index
    on by one modulo the number of glyphs; the text is ["[n] "], with
    [n] the number of running environments, followed by their names in
    insertion order joined by [" | "], and, when that is longer than
    [max_width - 1], its first [max_width - 4] code points followed by
    ["..."], so that the text never exceeds [max_width - 1] code
    points; the frame is one line as long as no name has a line feed. *)
Theorem frame_is_glyph_and_cut_text (self : Spinner.Spinner)
        (glyph : Spinner.str) :
  Spinner.frames !! Spinner._frame_index self = Some glyph ->
  exists text,
    Spinner.frame self
      = (Ok (glyph ++ Spinner.lit " " ++ text),
         Spinner.with_frame_index self
           ((Spinner._frame_index self + 1) mod 10)) /\
    length glyph = 1%nat /\
    ((length (Spinner.full_text self) <= Spinner.max_width - 1)%nat ->
     text = Spinner.full_text self) /\
    ((Spinner.max_width - 1 < length (Spinner.full_text self))%nat ->
     text = take (Spinner.max_width - 4) (Spinner.full_text self)
              ++ Spinner.lit "...") /\
    (length text <= Spinner.max_width - 1)%nat /\
    (Forall Spinner.one_line (dict_keys (Spinner._envs self)) ->
     Spinner.one_line (glyph ++ Spinner.lit " " ++ text)).
Proof.
  intros Hglyph. unfold Spinner.frame. rewrite Hglyph.
  destruct (frames_one_code_point _ _ Hglyph) as [Hlen Hline].
  change (Spinner.full_text
            (Spinner.with_frame_index self
               ((Spinner._frame_index self + 1)
                  mod length Spinner.frames)))
    with (Spinner.full_text self).
  assert (Hfull : Forall Spinner.one_line (dict_keys (Spinner._envs self)) ->
                  Spinner.one_line (Spinner.full_text self)).
  { intros Hnames. unfold Spinner.full_text.
    repeat apply one_line_app.
    - intros [H|[]]; discriminate.
    - apply pretty_nat_one_line.
    - intros [H|[H|[]]]; discriminate.
    - apply one_line_join; [|exact Hnames].
      intros [H|[H|[H|[]]]]; discriminate. }
  assert (Hsp : Spinner.one_line (Spinner.lit " ")).
  { intros [H|[]]; discriminate. }
  destruct (Spinner.max_width - 1 <? length (Spinner.full_text self))%nat
    eqn:Hcut.
  - apply Nat.ltb_lt in Hcut. eexists. split; [reflexivity|].
    split; [exact Hlen|]. split; [lia|]. split; [reflexivity|]. split.
    + rewrite length_app, length_take.
      change (length (Spinner.lit "...")) with 3%nat.
      change Spinner.max_width with 120%nat. lia.
    + intros Hnames. apply one_line_app; [exact Hline|].
      apply one_line_app; [exact Hsp|]. apply one_line_app.
      * apply one_line_take. exact (Hfull Hnames).
      * intros [H|[H|[H|[]]]]; discriminate.
  - apply Nat.ltb_ge in Hcut. eexists. split; [reflexivity|].
    split; [exact Hlen|]. split; [reflexivity|]. split; [lia|].
    split; [exact Hcut|].
    intros Hnames. apply one_line_app; [exact Hline|].
    apply one_line_app; [exact Hsp | exact (Hfull Hnames)].
Qed.

(** The statement above on the spinner with [a] and [b]. *)
Lemma frame_is_glyph_and_cut_text_witness :
  exists text,
    Spinner.frame spinner_a_b
      = (Ok ([0x280B%N] ++ Spinner.lit " " ++ text),
         Spinner.with_frame_index spinner_a_b
           ((Spinner._frame_index spinner_a_b + 1) mod 10)) /\
    length [0x280B%N] = 1%nat /\
    ((length (Spinner.full_text spinner_a_b) <= Spinner.max_width - 1)%nat ->
     text = Spinner.full_text spinner_a_b) /\
    ((Spinner.max_width - 1 < length (Spinner.full_text spinner_a_b))%nat ->
     text = take (Spinner.max_width - 4) (Spinner.full_text spinner_a_b)
              ++ Spinner.lit "...") /\
    (length text <= Spinner.max_width - 1)%nat /\
    (Forall Spinner.one_line (dict_keys (Spinner._envs spinner_a_b)) ->
     Spinner.one_line ([0x280B%N] ++ Spinner.lit " " ++ text)).
Proof.
  apply (frame_is_glyph_and_cut_text spinner_a_b [0x280B%N]).
  reflexivity.
Defined.

(* ================================================================== *)
(** * Spinner: finalizing a name *)
(* ================================================================== *)

Section SpinnerFinalize.
Import Spinner.
Variable platform : Platform.

Lemma clear_envs self : _envs (clear self) = _envs self.
Proof. unfold clear. now destruct (enabled self). Qed.

Lemma cursor_envs self mode : _envs (cursor platform self mode) = _envs self.
Proof.
  unfold cursor. destruct (isatty platform); [|reflexivity].
  now destruct (os_name platform).
Qed.

Lemma exit_envs self : _envs (snd (exit_ platform self)) = _envs self.
Proof.
  unfold exit_. destruct (_stop_spinner self) as [[|]|]; try reflexivity.
  cbn [snd]. destruct (enabled _); [|reflexivity].
  unfold enable_cursor. now rewrite cursor_envs, clear_envs.
Qed.

(** What a call does to the running set. *)
Lemma after_envs self op :
  _envs (after platform self op) =
  match op with
  | Add name now => dict_set name now (_envs self)
  | Finalize key _ _ =>
      match dict_get key (_envs self) with
      | Some _ => dict_del key (_envs self)
      | None => _envs self
      end
  | _ => _envs self
  end.
Proof.
  destruct op as [name now|key status now| | |]; cbn [after].
  - reflexivity.
  - unfold finalize. destruct (dict_get key (_envs self)); [|reflexivity].
    match goal with
    | |- _envs (snd (match _envs ?s with _ => _ end)) = _ =>
        assert (He : _envs s = dict_del key (_envs self))
          by (cbn; destruct (enabled self); cbn;
              rewrite ?clear_envs; reflexivity);
        destruct (_envs s) eqn:Hs
    end.
    + now rewrite exit_envs, Hs.
    + cbn [snd]. now rewrite Hs.
  - unfold render_frame. destruct (enabled self); [|reflexivity].
    unfold frame. destruct (frames !! _frame_index (clear self));
      cbn; now rewrite clear_envs.
  - unfold enter, disable_cursor. destruct (enabled self); cbn;
      now rewrite ?cursor_envs.
  - apply exit_envs.
Qed.

(** The running set has no name twice, and holds exactly the names that
    were added and not finalized since. *)
Lemma after_all_running history : forall self name,
  NoDup (dict_keys (_envs self)) ->
  NoDup (dict_keys (_envs (after_all platform self history))) /\
  (is_Some (dict_get name (_envs (after_all platform self history))) <->
   running history name
           (bool_decide (is_Some (dict_get name (_envs self)))) = true).
Proof.
  induction history as [|op history IH]; intros self name Hnodup.
  - simpl. split; [exact Hnodup|]. now rewrite bool_decide_eq_true.
  - assert (Hnodup' : NoDup (dict_keys (_envs (after platform self op)))).
    { rewrite after_envs. destruct op; try assumption.
      - now apply dict_keys_set_NoDup.
      - destruct (dict_get key (_envs self)); [|assumption].
        now apply dict_keys_del_NoDup. }
    change (after_all platform self (op :: history))
      with (after_all platform (after platform self op) history).
    destruct (IH (after platform self op) name Hnodup') as [Hn Hiff].
    split; [exact Hn|]. rewrite Hiff. clear Hiff Hn IH.
    assert (Hb : bool_decide
               (is_Some (dict_get name (_envs (after platform self op))))
             = match op with
               | Add name' _ =>
                   if decide (name = name') then true
                   else bool_decide (is_Some (dict_get name (_envs self)))
               | Finalize key _ _ =>
                   if decide (name = key) then false
                   else bool_decide (is_Some (dict_get name (_envs self)))
               | _ => bool_decide (is_Some (dict_get name (_envs self)))
               end).
    { rewrite after_envs. destruct op as [name' now|key status now| | |];
        try reflexivity.
      - rewrite dict_get_set_any. destruct (decide (name = name'));
          [|reflexivity].
        apply bool_decide_eq_true. eauto.
      - destruct (dict_get key (_envs self)) eqn:Hkey.
        + rewrite (dict_get_del _ _ _ Hnodup).
          destruct (decide (name = key)); [|reflexivity].
          apply bool_decide_eq_false. now intros [? ?].
        + destruct (decide (name = key)) as [->|]; [|reflexivity].
          rewrite Hkey. apply bool_decide_eq_false. now intros [? ?]. }
    destruct op; cbn [running]; now rewrite Hb.
Qed.

Lemma running_finalized history name status now so_far :
  running (history ++ [Finalize name status now]) name so_far = false.
Proof.
  revert so_far. induction history as [|op history IH]; intros so_far.
  - simpl. now destruct (decide (name = name)).
  - destruct op; simpl; apply IH.
Qed.

Lemma finalize_not_running self key status now :
  dict_get key (_envs self) = None ->
  finalize platform self key status now = (Raise KeyError, self).
Proof. intros H. unfold finalize. now rewrite H. Qed.

End SpinnerFinalize.

(** C10: on a spinner that went through any sequence of calls since its
    creation, a name that is not running at the end of that sequence
    (never added, or finalized since it was last added) makes
    [finalize], and so [succeed], [fail] and [skip], raise [KeyError]
    and leave the spinner, its stream included, untouched; and after any
    [finalize] of a name the name is out of the running set, so that
    every further [finalize] of it raises [KeyError]. *)
Theorem finalize_needs_running_name
        (platform : Spinner.Platform) (enabled : bool)
        (history : list Spinner.Op) (name : Spinner.str) :
  (Spinner.running history name false = false ->
   forall status now,
     let self := Spinner.after_all platform (Spinner.init enabled) history in
     Spinner.finalize platform self name status now = (Raise KeyError, self) /\
     Spinner.succeed platform self name now = (Raise KeyError, self) /\
     Spinner.fail platform self name now = (Raise KeyError, self) /\
     Spinner.skip platform self name now = (Raise KeyError, self)) /\
  (forall status now status' now',
      let self := Spinner.after_all platform (Spinner.init enabled) history in
      let self' := snd (Spinner.finalize platform self name status now) in
      dict_get name (Spinner._envs self') = None /\
      Spinner.finalize platform self' name status' now'
        = (Raise KeyError, self')).
Proof.
  assert (Hinit : NoDup (dict_keys (Spinner._envs (Spinner.init enabled)))).
  { apply NoDup_nil_2. }
  assert (Hgone : forall history',
             Spinner.running history' name false = false ->
             dict_get name
               (Spinner._envs
                  (Spinner.after_all platform (Spinner.init enabled) history'))
             = None).
  { intros history' Hrun.
    destruct (after_all_running platform history' (Spinner.init enabled)
                                name Hinit) as [_ Hiff].
    destruct (dict_get name _) eqn:Hget; [|reflexivity].
    assert (Hsome : Spinner.running history' name false = true).
    { apply Hiff. eauto. }
    congruence. }
  split.
  - intros Hrun status now self. specialize (Hgone history Hrun).
    unfold Spinner.succeed, Spinner.fail, Spinner.skip.
    repeat split; now apply finalize_not_running.
  - intros status now status' now' self self'.
    assert (Hnone : dict_get name (Spinner._envs self') = None).
    { specialize (Hgone (history ++ [Spinner.Finalize name status now])
                        (running_finalized _ _ _ _ _)).
      unfold Spinner.after_all in Hgone. rewrite fold_left_app in Hgone.
      exact Hgone. }
    split; [exact Hnone | now apply finalize_not_running].
Qed.

(** The statement above for [b], finalized once, and for [c], never
    added, on a spinner where [a] and [b] were added. *)
Lemma finalize_needs_running_name_witness :
  let platform :=
    {| Spinner.os_name := Spinner.posix; Spinner.isatty := true;
       Spinner.linesep := [10%N];
       Spinner.td_human_readable := fun _ => Spinner.lit "1 second" |} in
  let history :=
    [ Spinner.Enter; Spinner.Add (Spinner.lit "a") 0;
      Spinner.Add (Spinner.lit "b") 1; Spinner.RenderFrame;
      Spinner.Finalize (Spinner.lit "b") (Spinner.lit "OK") 2 ] in
  let self := Spinner.after_all platform (Spinner.init true) history in
  Spinner.succeed platform self (Spinner.lit "b") 3 = (Raise KeyError, self) /\
  Spinner.fail platform self (Spinner.lit "c") 3 = (Raise KeyError, self).
Proof.
  intros platform history self. split.
  - apply (proj1 (finalize_needs_running_name
                    platform true history (Spinner.lit "b"))
                 eq_refl (Spinner.lit "x") 3).
  - apply (proj1 (finalize_needs_running_name
                    platform true history (Spinner.lit "c"))
                 eq_refl (Spinner.lit "x") 3).
Defined.

(* ================================================================== *)
(** * More on the scheduler *)
(* ================================================================== *)
Section SchedulerMore.
Import Common.
Variable state : State.

(** X1: the graph [run_order] builds has an entry exactly for the names
    of [to_run] whose environment can be constructed, and the entry of
    [env] is its declared [depends] cut down to the universe: edges to
    names outside [to_run] are dropped. *)
Theorem build_todo_entry (to_run : list string) (env : string) :
  dict_get env (build_todo state to_run) =
  if decide (env ∈ to_run)
  then (fun depends => list_to_set to_run ∩ list_to_set depends)
         <$> tox_env state env
  else None.
Proof.
  unfold build_todo. generalize (list_to_set to_run : gset string) as U.
  intros U.
  assert (Hgen : forall l (acc : dict string (gset string)),
             dict_get env
               (fold_left
                  (fun todo e =>
                     match tox_env state e with
                     | None => todo
                     | Some depends =>
                         dict_set e (U ∩ list_to_set depends) todo
                     end) l acc)
             = if decide (env ∈ l)
               then match tox_env state env with
                    | Some depends => Some (U ∩ list_to_set depends)
                    | None => dict_get env acc
                    end
               else dict_get env acc).
  { induction l as [|x l IH]; intros acc.
    - simpl. destruct (decide (env ∈ [])) as [Hin|]; [|reflexivity].
      now apply elem_of_nil in Hin.
    - cbn [fold_left]. rewrite IH.
      assert (Hx : dict_get env
                     match tox_env state x with
                     | Some depends =>
                         dict_set x (U ∩ list_to_set depends) acc
                     | None => acc
                     end
                   = if decide (env = x)
                     then match tox_env state env with
                          | Some depends => Some (U ∩ list_to_set depends)
                          | None => dict_get env acc
                          end
                     else dict_get env acc).
      { destruct (decide (env = x)) as [->|Hne].
        - destruct (tox_env state x); [|reflexivity].
          rewrite dict_get_set_any. now destruct (decide (x = x)).
        - destruct (tox_env state x); [|reflexivity].
          rewrite dict_get_set_any. now destruct (decide (env = x)). }
      rewrite Hx.
      destruct (decide (env ∈ l)) as [Hl|Hl];
        destruct (decide (env ∈ x :: l)) as [Hxl|Hxl];
        destruct (decide (env = x)) as [Heq|Hne];
        try (subst env); try reflexivity;
        try (now destruct (tox_env state x));
        exfalso;
        first [ apply Hxl; apply elem_of_cons; tauto
              | apply elem_of_cons in Hxl; tauto ]. }
  rewrite Hgen. destruct (decide (env ∈ to_run)); [|reflexivity].
  now destruct (tox_env state env).
Qed.

(** A batch that is returned means every environment of the order had
    its entry. *)
Lemma collect_batch_keys todo completed order ready_to_run new_order
      ready' order' :
  collect_batch todo completed order ready_to_run new_order
    = Ok (ready', order') ->
  Forall (fun env => is_Some (dict_get env todo)) order.
Proof.
  revert ready_to_run new_order.
  induction order as [|e order IH]; intros ready_to_run new_order; simpl.
  - intros _. apply Forall_nil_2.
  - destruct (dict_get e todo) as [depends|] eqn:Hget; [|discriminate].
    destruct (bool_decide (depends ∖ completed = ∅)); intros H;
      (apply Forall_cons; split; [eauto | exact (IH _ _ H)]).
Qed.

Lemma filter_partition_Permutation {A} (f : A -> bool) (l : list A) :
  List.filter f l ++ List.filter (fun x => negb (f x)) l ≡ₚ l.
Proof.
  induction l as [|x l IH]; simpl; [reflexivity|].
  destruct (f x); simpl.
  - now rewrite IH.
  - rewrite <- Permutation_middle. now rewrite IH.
Qed.

(** X2: a batch and the order kept for later split the scanned order:
    together they are a rearrangement of it (no environment is lost or
    yielded twice), every environment of the batch has all its
    dependencies completed and none of the kept ones has. *)
Theorem collect_batch_splits_order todo completed order ready rest :
  collect_batch todo completed order [] [] = Ok (ready, rest) ->
  ready ++ rest ≡ₚ order /\
  Forall (fun env => is_ready todo completed env = true) ready /\
  Forall (fun env => is_ready todo completed env = false) rest.
Proof.
  intros H. pose proof (collect_batch_keys _ _ _ _ _ _ _ H) as Hkeys.
  rewrite (collect_batch_partition _ _ _ _ _ Hkeys) in H.
  injection H as <- <-. simpl. split; [|split].
  - apply filter_partition_Permutation.
  - apply List.Forall_forall. intros env Hin.
    now apply filter_In in Hin as [_ ?].
  - apply List.Forall_forall. intros env Hin.
    apply filter_In in Hin as [_ Hneg]. now apply negb_true_iff in Hneg.
Qed.

(** X3: an order that names an environment without entry in the graph
    makes the scan raise [KeyError]; the generator is then finished and
    yields nothing. *)
Theorem collect_batch_missing_entry todo completed order :
  Exists (fun env => dict_get env todo = None) order ->
  order <> [] /\
  forall ready_to_run new_order,
    collect_batch todo completed order ready_to_run new_order
      = Raise KeyError /\
    resume todo completed order = (Raised KeyError, Exhausted).
Proof.
  intros Hex. split.
  { intros ->. inversion Hex. }
  assert (Hraise : forall ready_to_run new_order,
             collect_batch todo completed order ready_to_run new_order
             = Raise KeyError).
  { induction Hex as [env order Hnone|env order _ IH];
      intros ready_to_run new_order; simpl.
    - now rewrite Hnone.
    - destruct (dict_get env todo) as [depends|]; [|reflexivity].
      destruct (bool_decide (depends ∖ completed = ∅)); apply IH. }
  intros ready_to_run new_order. split; [apply Hraise|].
  unfold resume. destruct order as [|env order]; [inversion Hex|].
  now rewrite Hraise.
Qed.

(** X4: completing more environments never takes one out of a batch:
    an environment ready under [completed] is ready under any larger
    set. *)
Theorem is_ready_monotone todo (completed completed' : gset string) env :
  completed ⊆ completed' ->
  is_ready todo completed env = true ->
  is_ready todo completed' env = true.
Proof.
  intros Hsub Hready. apply is_ready_spec in Hready as (deps & Hget & Hdeps).
  apply is_ready_spec. exists deps. split; [exact Hget|].
  intros x Hx. apply Hsub, Hdeps, Hx.
Qed.

End SchedulerMore.

(* ================================================================== *)
(** * More on the driver loop *)
(* ================================================================== *)

(** Splits a move into the statement of the loop it executes. *)
Ltac driver_cases Hstep :=
  unfold Common.step in Hstep;
  repeat match type of Hstep with
         | match ?x with _ => _ end = _ => destruct x eqn:?; try discriminate
         | (if ?x then _ else _) = _ => destruct x eqn:?; try discriminate
         end;
  injection Hstep as <-.

(** Opens the driver's statements in the goal. *)
Ltac driver_open :=
  unfold Common.queue, Common.pull, Common.collect, Common.set_future;
  repeat match goal with
         | |- context [match Common.tox_env ?s ?e with _ => _ end] =>
             destruct (Common.tox_env s e)
         | |- context [if Common.interrupt ?d then _ else _] =>
             destruct (Common.interrupt d) eqn:?
         | |- context [let '(_, _) := ?x in _] => destruct x as [[?| |?] ?]
         | |- context [match ?r with Some _ => _ | None => _ end] =>
             is_var r; destruct r
         end;
  cbn.

Section DriverMore.
Import Common Session.
Variable sort : dict string (gset string) -> res (list string).
Variable state : State.
Variable MISS_DURATION : Q.
Variable to_run_list : list string.
Variable workers : option nat.

Lemma handled_app events events' :
  handled (events ++ events') = handled events ++ handled events'.
Proof. unfold handled. apply omap_app. Qed.

Lemma completed_step d a d' :
  step sort state MISS_DURATION d a = Some d' ->
  completed d = list_to_set (name <$> results d) ->
  completed d' = list_to_set (name <$> results d').
Proof.
  intros Hstep IH. driver_cases Hstep; driver_open; try exact IH;
    rewrite fmap_app, list_to_set_app_L, IH; cbn;
    now rewrite (right_id_L ∅ (∪)).
Qed.

(** X5: at every moment of a run, [completed] is exactly the set of the
    names of the results recorded so far. *)
Theorem completed_is_names_of_results (d : Driver) :
  reachable sort state MISS_DURATION to_run_list workers d ->
  completed d = list_to_set (name <$> results d).
Proof.
  induction 1 as [|d a d' _ IH Hstep].
  - unfold start. cbn. reflexivity.
  - exact (completed_step _ _ _ Hstep IH).
Qed.

Lemma stopped_step d a d' :
  step sort state MISS_DURATION d a = Some d' ->
  (phase d = Stopped -> future_to_env d = []) ->
  (phase d' = Stopped -> future_to_env d' = []).
Proof.
  intros Hstep IH. driver_cases Hstep; driver_open; try discriminate;
    try (intros Hp; rewrite Hp in *; specialize (IH eq_refl);
         rewrite IH in *; discriminate);
    try (intros Hp; apply IH; congruence).
  all: repeat match goal with
         | |- context [match ?l with [] => _ | _ :: _ => _ end] => destruct l
         end; cbn; try discriminate; try reflexivity.
Qed.

(** X7: when the loop has ended nothing is in flight, and nothing
    happens any more apart from the interrupt flag being set: the
    driver makes no move, no future can start, finish or be cancelled. *)
Theorem stopped_is_final (d : Driver) :
  reachable sort state MISS_DURATION to_run_list workers d ->
  phase d = Stopped ->
  future_to_env d = [] /\
  forall a d', step sort state MISS_DURATION d a = Some d' ->
               a = SetInterrupt.
Proof.
  intros Hreach Hphase.
  assert (Hnone : future_to_env d = []).
  { revert Hphase. induction Hreach as [|d a d' _ IH Hstep].
    - unfold start. cbn. reflexivity.
    - exact (stopped_step _ _ _ Hstep IH). }
  split; [exact Hnone|].
  intros a d' Hstep. unfold step in Hstep. rewrite Hphase, Hnone in Hstep.
  destruct a; try reflexivity; try discriminate;
    destruct (interrupt d); discriminate.
Qed.

Lemma accounted_step d a d' :
  step sort state MISS_DURATION d a = Some d' ->
  results_accounted d -> results_accounted d'.
Proof.
  intros Hstep. unfold results_accounted. driver_cases Hstep.
  all: driver_open.
  all: repeat match goal with
         | |- context [match ?l with [] => _ | _ :: _ => _ end] => destruct l
         end.
  all: cbn; intros IH; rewrite ?handled_app; cbn in *;
    rewrite ?app_nil_r in *; try exact I; try exact IH.
  all: try (now rewrite IH).
Qed.

(** X8: at every moment of a run whose loop has not crashed, the
    results handed to [_handle_one_run_done] are, in order, the results
    recorded so far, less the one collected in the current iteration:
    every result is handled once, none is skipped or handled twice. *)
Theorem results_handled_in_order (d : Driver) :
  reachable sort state MISS_DURATION to_run_list workers d ->
  (forall e, phase d <> Crashed e) ->
  handled (events d) ++ in_hand (phase d) = results d.
Proof.
  intros Hreach Hnc.
  assert (Hacc : results_accounted d).
  { clear Hnc. induction Hreach as [|d a d' _ IH Hstep].
    - unfold results_accounted, start. cbn.
      now destruct (default (length to_run_list) workers =? 0)%nat.
    - exact (accounted_step _ _ _ Hstep IH). }
  unfold results_accounted in Hacc.
  destruct (phase d) eqn:Hp; try exact Hacc. now destruct (Hnc e).
Qed.

End DriverMore.

(* ================================================================== *)
(** * The end of [execute]: ordering and reporting *)
(* ================================================================== *)
Section ExecuteFinally.
Import Common Session.

Lemma name_to_run_acc (results : list ToxEnvRunResult)
      (acc : gmap string ToxEnvRunResult) (env : string) :
  fold_left (fun m r => <[ name r := r ]> m) results acc !! env
  = match last (filter (fun r => name r = env) results) with
    | Some r => Some r
    | None => acc !! env
    end.
Proof.
  revert acc. induction results as [|x results IH]; intros acc.
  - reflexivity.
  - cbn [fold_left]. rewrite IH. rewrite filter_cons.
    destruct (decide (name x = env)) as [Hx|Hx].
    + rewrite last_cons.
      destruct (last (filter (fun r => name r = env) results));
        [reflexivity|]. now rewrite <- Hx, lookup_insert_eq.
    + destruct (last (filter (fun r => name r = env) results));
        [reflexivity|]. now rewrite lookup_insert_ne.
Qed.

(** [name_to_run] maps a name to the last result recorded under that
    name, and to nothing when no result bears it. *)
Lemma name_to_run_last (results : list ToxEnvRunResult) (env : string) :
  name_to_run results !! env
  = last (filter (fun r => name r = env) results).
Proof.
  unfold name_to_run. rewrite name_to_run_acc, lookup_empty.
  now destruct (last _).
Qed.

Lemma ordered_loop_spec m to_run acc :
  (forall ordered,
      ordered_loop m to_run acc = Ok ordered ->
      exists picked, ordered = acc ++ picked /\
                     Forall2 (fun env r => m !! env = Some r) to_run picked) /\
  (ordered_loop m to_run acc = Raise KeyError <->
   Exists (fun env => m !! env = None) to_run) /\
  (forall e, ordered_loop m to_run acc = Raise e -> e = KeyError).
Proof.
  revert acc. induction to_run as [|env to_run IH]; intros acc; cbn.
  - split; [|split].
    + intros ordered [= <-]. exists []. rewrite app_nil_r.
      split; [reflexivity | constructor].
    + split; [discriminate | intros H; inversion H].
    + discriminate.
  - destruct (m !! env) as [r|] eqn:Hget.
    + destruct (IH (acc ++ [r])) as (Hok & Hraise & Honly).
      split; [|split].
      * intros ordered Hord. destruct (Hok _ Hord) as (picked & -> & Hall).
        exists (r :: picked). rewrite <- app_assoc. split; [reflexivity|].
        now constructor.
      * rewrite Hraise. split; [intros H; now apply Exists_cons_tl|].
        intros H. apply Exists_cons in H as [H|H]; [congruence | exact H].
      * exact Honly.
    + split; [|split].
      * discriminate.
      * split; [intros _; now apply Exists_cons_hd | reflexivity].
      * now intros e [= <-].
Qed.

(** X10: the results handed to [report] follow [to_run_list]: when the
    ordering succeeds, its names are [to_run_list] itself and each entry
    is the last result recorded under its name; it fails, with
    [KeyError] and nothing else, exactly when some name of
    [to_run_list] has no result. *)
Theorem ordered_results_follow_to_run_list
        (to_run_list : list string) (results : list ToxEnvRunResult) :
  (forall ordered,
      ordered_results to_run_list results = Ok ordered ->
      name <$> ordered = to_run_list /\
      Forall2 (fun env r => last (filter (fun r' => name r' = env) results)
                            = Some r) to_run_list ordered) /\
  (ordered_results to_run_list results = Raise KeyError <->
   Exists (fun env => env ∉ name <$> results) to_run_list) /\
  (forall e, ordered_results to_run_list results = Raise e -> e = KeyError).
Proof.
  unfold ordered_results.
  destruct (ordered_loop_spec (name_to_run results) to_run_list [])
    as (Hok & Hraise & Honly).
  assert (Hlast : forall env r,
             last (filter (fun r' => name r' = env) results) = Some r ->
             name r = env).
  { intros env r Hl. apply last_Some in Hl as [l' Hl].
    assert (Hin : r ∈ filter (fun r' => name r' = env) results).
    { rewrite Hl. apply elem_of_app. right. apply list_elem_of_here. }
    now apply list_elem_of_filter in Hin as [? _]. }
  split; [|split].
  - intros ordered Hord. destruct (Hok _ Hord) as (picked & -> & Hall).
    cbn. clear Hord Hok Hraise Honly. split.
    + induction Hall as [|env r to_run picked Hr _ IH]; [reflexivity|].
      cbn. rewrite name_to_run_last in Hr. now rewrite (Hlast _ _ Hr), IH.
    + eapply Forall2_impl; [exact Hall|]. intros env r Hr.
      now rewrite <- name_to_run_last.
  - rewrite Hraise. apply Exists_proper; [|reflexivity].
    intros env. rewrite name_to_run_last. rewrite last_None.
    split.
    + intros Hnil Hin. apply list_elem_of_fmap in Hin as (r & -> & Hr).
      assert (Hf : r ∈ filter (fun r' => name r' = name r) results).
      { apply list_elem_of_filter. now split. }
      rewrite Hnil in Hf. now apply elem_of_nil in Hf.
    + intros Hnot.
      destruct (filter (fun r' => name r' = env) results) as [|r l] eqn:Hf;
        [reflexivity|]. exfalso. apply Hnot.
      assert (Hin : r ∈ filter (fun r' => name r' = env) results).
      { rewrite Hf. apply list_elem_of_here. }
      apply list_elem_of_filter in Hin as [<- Hin].
      apply list_elem_of_fmap. eauto.
  - exact Honly.
Qed.

Lemma report_loop_printed (runs : list ToxEnvRunResult) (b : bool)
      (printed : list Printed) :
  snd (fold_left
         (fun (acc : bool * list Printed) run =>
            let '(all_ok, printed) := acc in
            let ok := run_ok run in
            let line :=
              {| color := run_color run;
                 message := "  " +:+ name run +:+ ": " +:+ run_msg run |} in
            (ok && all_ok, printed ++ [line]))
         runs (b, printed))
  = printed
      ++ map (fun run =>
                {| color := run_color run;
                   message := "  " +:+ name run +:+ ": " +:+ run_msg run |})
             runs.
Proof.
  revert b printed.
  induction runs as [|run runs IH]; intros b printed; simpl.
  - now rewrite app_nil_r.
  - rewrite IH. now rewrite <- app_assoc.
Qed.

(** X11: [report] prints one line per environment, in the order of
    [runs], each made of the name and of [OK], [SKIP] or
    [FAIL code <n>] in green, yellow or red, and then one closing line:
    the green congratulations when every code is 0, the red
    [evaluation failed] otherwise. *)
Theorem report_prints_one_line_per_run (runs : list ToxEnvRunResult) :
  fst (report runs)
  = map (fun run =>
           {| color := run_color run;
              message := "  " +:+ name run +:+ ": " +:+ run_msg run |})
        runs
      ++ [if forallb run_ok runs
          then {| color := GREEN; message := "  congratulations :)" |}
          else {| color := RED; message := "  evaluation failed :(" |}].
Proof.
  unfold report, report_loop.
  pose proof (report_loop_acc runs true []) as Hok.
  pose proof (report_loop_printed runs true []) as Hpr.
  destruct (fold_left _ runs (true, [])) as [all_ok printed].
  cbn in Hok, Hpr. subst all_ok printed. rewrite andb_true_r.
  now destruct (forallb run_ok runs).
Qed.

(** X12: the exit code of [report] is 0 exactly when every environment's
    code is 0: a failing run never exits with 0. *)
Theorem report_zero_iff_all_zero (runs : list ToxEnvRunResult) :
  snd (report runs) = 0 <-> Forall (fun run => code run = 0) runs.
Proof.
  rewrite report_code, <- forallb_run_ok.
  destruct (forallb run_ok runs) eqn:Hall; [tauto|].
  split; [|discriminate]. intros Hzero. exfalso.
  destruct runs as [|r0 [|r1 rest]]; try discriminate.
  cbn in Hall. rewrite andb_true_r in Hall. unfold run_ok, Api.OK in Hall.
  apply Z.eqb_neq in Hall. contradiction.
Qed.

End ExecuteFinally.

(* ================================================================== *)
(** * Checking an outcome *)
(* ================================================================== *)

(** X13: [assert_success] raises [SystemExit] with the exit code
    exactly when the exit code is set and not 0; it passes, logging at
    [INFO] only, both for exit code 0 and for an unset exit code, so
    that an outcome can pass although its truth value is false; and
    when the output was already shown on the standard streams it is not
    printed again. *)
Theorem assert_success_raises_iff_nonzero (o : Api.Outcome) :
  (forall code,
      fst (OutcomeChecks.assert_success o)
        = OutcomeChecks.SystemExit (Some code)
      <-> Api.exit_code o = Some code /\ code <> 0) /\
  (OutcomeChecks.assert_success o
     = (OutcomeChecks.Passed,
        [OutcomeChecks.LogRunDone OutcomeChecks.INFO])
   <-> Api.exit_code o = None \/ Api.exit_code o = Some 0) /\
  (Api.exit_code o = None ->
   Api.bool_ o = false /\
   fst (OutcomeChecks.assert_success o) = OutcomeChecks.Passed) /\
  (Api.show_on_standard o = true ->
   length (snd (OutcomeChecks.assert_success o)) = 1%nat).
Proof.
  unfold OutcomeChecks.assert_success, OutcomeChecks._assert_fail,
    Api.bool_, Api.py_eq_opt, Api.OK.
  split; [|split; [|split]].
  - intros code. destruct (Api.exit_code o) as [c|]; cbn.
    + destruct (Z.eqb_spec c 0) as [->|Hne]; cbn.
      * split; [discriminate|]. intros [[= <-] Hne]. now contradiction Hne.
      * split; [now intros [= <-] | now intros [[= ->] _]].
    + split; [discriminate | now intros [[=] _]].
  - destruct (Api.exit_code o) as [c|]; cbn.
    + destruct (Z.eqb_spec c 0) as [->|Hne]; cbn.
      * split; [now right | reflexivity].
      * split; [discriminate|]. intros [[=]|[= ->]]. now contradiction Hne.
    + split; [now left | reflexivity].
  - intros ->. now split.
  - intros ->. destruct (Api.exit_code o) as [c|]; [|reflexivity].
    now destruct (Z.eqb c 0).
Qed.

(* ================================================================== *)
(** * More on [interrupt] and [Execute.call] *)
(* ================================================================== *)



Section CascadeSteps.
Import LocalSubProcess.








End CascadeSteps.


(** X17: the [ValueError] of a [communicate] is caught only in the
    branch for a child that is already gone.  A child that is still
    alive when [interrupt] begins, with which no [communicate] was
    started and whose stdin is a closed pipe (the state in which
    [__enter__] leaves the child of a [StdinSource.OFF] request), gets
    the soft interrupt and nothing more: [interrupt] raises
    [ValueError] and hands nothing to the handlers. *)
Theorem interrupt_live_child_closed_stdin
        (self : LocalSubProcess.Instance) (proc : LocalSubProcess.Popen) :
  LocalSubProcess.process self = Some proc ->
  fst (LocalSubProcess.poll proc) = None ->
  LocalSubProcess._communication_started proc = false ->
  LocalSubProcess.stdin_pipe proc = LocalSubProcess.ClosedPipe ->
  fst (LocalSubProcess.interrupt self) = LocalSubProcess.Escaped ValueError /\
  LocalSubProcess.signals_received (snd (LocalSubProcess.interrupt self))
    = LocalSubProcess.received proc ++ [LocalSubProcess.SIGINT] /\
  LocalSubProcess._out (snd (LocalSubProcess.interrupt self))
    = LocalSubProcess._out self /\
  LocalSubProcess._err (snd (LocalSubProcess.interrupt self))
    = LocalSubProcess._err self.
Proof.
  intros Hproc Hpoll Hstarted Hstdin.
  unfold LocalSubProcess.interrupt, LocalSubProcess.signals_received.
  rewrite Hproc.
  destruct proc as [pid0 code0 dying0 out0 err0 closed0 stdin0 started0
                    output0 received0 react].
  cbn in Hstarted, Hstdin. subst started0 stdin0.
  unfold LocalSubProcess.poll in Hpoll |- *. cbn in Hpoll |- *.
  unfold LocalSubProcess.send_signal, LocalSubProcess.poll,
    LocalSubProcess.communicate, LocalSubProcess.flush_stdin.
  destruct code0 as [c|]; [discriminate|].
  destruct dying0 as [[t status]|]; cbn in Hpoll |- *;
    [destruct (Qle_bool t 0) eqn:Ht; [discriminate|]; cbn; rewrite Ht|];
    cbn; repeat split.
Qed.

(** X18: when the spawn fails and the [with] block is then hit by a
    [KeyboardInterrupt], [interrupt] finds no process and answers 0:
    the outcome carried by [ToxKeyboardInterrupt] has exit code 0, not
    the [errno], and counts as a success. *)
Theorem spawn_failure_then_keyboard_interrupt
        (WAIT_GENERAL : Q)
        (spawn : list string -> Api.ExecuteRequest -> LocalSubProcess.Spawn)
        (which : string -> string -> option string)
        (request : Api.ExecuteRequest) (show : bool) (start end_ : Q)
        (body : list LocalSubProcess.StatusCall)
        (path cmd0 : string) (cmd_tail : list string) (errno : Z) :
  Api.env request !! "PATH" = Some path ->
  Api.cmd request = cmd0 :: cmd_tail ->
  spawn (match which cmd0 path with
         | None => Api.cmd request
         | Some executable => executable :: cmd_tail
         end) request = LocalSubProcess.OSError errno ->
  exists outcome,
    LocalSubProcess.call WAIT_GENERAL spawn which request show start end_
                         body true
      = LocalSubProcess.ToxKeyboardInterrupt outcome /\
    Api.exit_code outcome = Some 0 /\
    Api.bool_ outcome = true /\
    Api.out outcome = "" /\ Api.err outcome = "".
Proof.
  intros Hpath Hcmd Hspawn.
  unfold LocalSubProcess.call.
  rewrite (enter_spawn_failure _ _ _ _ _ _ _ _ _ Hpath Hcmd Hspawn).
  rewrite with_body_failed_status.
  cbn [LocalSubProcess.exit_ LocalSubProcess.process
       LocalSubProcess.with_cmd LocalSubProcess.init
       LocalSubProcess.interrupt
       LocalSubProcess.cmd_of LocalSubProcess._cmd
       LocalSubProcess._out
       LocalSubProcess._err LocalSubProcess.text LocalSubProcess.content].
  eexists. split; [reflexivity|]. repeat split.
Qed.

(** X19: for a request without ["PATH"] in its environment
    [Execute.call] ends in the lookup error of [cmd], whatever the
    platform would have answered to the spawn and whatever the caller
    meant to do: no [Outcome] is produced. *)
Theorem call_without_PATH_raises
        (WAIT_GENERAL : Q)
        (spawn : list string -> Api.ExecuteRequest -> LocalSubProcess.Spawn)
        (which : string -> string -> option string)
        (request : Api.ExecuteRequest) (show : bool) (start end_ : Q)
        (body : list LocalSubProcess.StatusCall)
        (keyboard_interrupt : bool) :
  Api.env request !! "PATH" = None ->
  exists e,
    LocalSubProcess.call WAIT_GENERAL spawn which request show start end_
                         body keyboard_interrupt
      = LocalSubProcess.Propagated e /\
    is_LookupError e = true.
Proof.
  intros Hpath. unfold LocalSubProcess.call, LocalSubProcess.enter,
                  LocalSubProcess.cmd_of.
  cbn [LocalSubProcess.init LocalSubProcess._cmd LocalSubProcess.request].
  rewrite Hpath.
  destruct (Api.cmd request); eexists; (split; [reflexivity|reflexivity]).
Qed.

(* ================================================================== *)
(** * More on the spinner *)
(* ================================================================== *)
Section DictOrder.
Context {K V : Type} `{EqDecision K}.

Lemma dict_keys_set (k : K) (v : V) (d : dict K V) :
  dict_keys (dict_set k v d)
  = if decide (k ∈ dict_keys d) then dict_keys d else dict_keys d ++ [k].
Proof.
  unfold dict_keys. induction d as [|[k0 v0] d IH]; cbn.
  - destruct (decide (k ∈ [])) as [Hin|]; [|reflexivity].
    now apply elem_of_nil in Hin.
  - destruct (decide (k = k0)) as [->|Hne]; cbn.
    + destruct (decide (k0 ∈ k0 :: map fst d)) as [|Hn]; [reflexivity|].
      exfalso. apply Hn. apply list_elem_of_here.
    + rewrite IH.
      destruct (decide (k ∈ map fst d)) as [Hin|Hin];
        destruct (decide (k ∈ k0 :: map fst d)) as [Hin'|Hin'];
        try reflexivity.
      * exfalso. apply Hin'. now apply elem_of_cons; right.
      * apply elem_of_cons in Hin' as [?|?]; congruence.
Qed.

Lemma dict_del_set_fresh (k : K) (v : V) (d : dict K V) :
  dict_get k d = None -> dict_del k (dict_set k v d) = d.
Proof.
  induction d as [|[k0 v0] d IH]; cbn; intros Hget.
  - now destruct (decide (k = k)).
  - destruct (decide (k = k0)) as [->|Hne]; [discriminate|].
    cbn. destruct (decide (k = k0)); [congruence|]. now rewrite IH.
Qed.

Lemma filter_ne_fresh (k : K) (l : list K) :
  k ∉ l -> filter (fun k' => k' <> k) l = l.
Proof.
  induction l as [|k1 l IH]; intros Hk; [reflexivity|].
  rewrite filter_cons. destruct (decide (k1 <> k)) as [_|Hc].
  - f_equal. apply IH. intros Hin. apply Hk. now apply elem_of_cons; right.
  - exfalso. apply Hk. destruct (decide (k1 = k)) as [->|?];
      [apply list_elem_of_here | now contradiction Hc].
Qed.

Lemma dict_keys_del (k : K) (d : dict K V) :
  NoDup (dict_keys d) ->
  dict_keys (dict_del k d) = filter (fun k' => k' <> k) (dict_keys d).
Proof.
  unfold dict_keys. induction d as [|[k0 v0] d IH];
    cbn [dict_del map fst]; intros Hd; [reflexivity|].
  apply NoDup_cons in Hd as [Hk0 Hd].
  rewrite filter_cons. destruct (decide (k = k0)) as [->|Hne].
  - destruct (decide (k0 <> k0)) as [Hc|_]; [now contradiction Hc|].
    symmetry. now apply filter_ne_fresh.
  - destruct (decide (k0 <> k)) as [_|Hc]; [|exfalso; apply Hc; congruence].
    cbn [map fst]. now rewrite IH.
Qed.

End DictOrder.

Section SpinnerMore.
Import Spinner Render.
Variable platform : Platform.

Lemma with_frame_index_same self :
  with_frame_index self (_frame_index self) = self.
Proof. now destruct self. Qed.

(** X20: [n] turns of the render loop on a spinner whose frame index is
    in range never fail and change nothing but the index, which moves
    on by [n] modulo the ten glyphs; after ten turns the spinner shows
    the same glyph again. *)
Theorem frame_n_rotates (n : nat) (self : Spinner) :
  (_frame_index self < 10)%nat ->
  frame_n n self
  = (Ok tt, with_frame_index self ((_frame_index self + n) mod 10)).
Proof.
  revert self. induction n as [|n IH]; intros self Hlt.
  - cbn [frame_n]. rewrite Nat.add_0_r, Nat.mod_small by exact Hlt.
    now rewrite with_frame_index_same.
  - cbn [frame_n]. unfold frame.
    destruct (frames !! _frame_index self) as [glyph|] eqn:Hglyph.
    + change (length frames) with 10%nat. rewrite IH.
      * f_equal. unfold with_frame_index.
        cbn [_envs _frame_index enabled stream _stop_spinner]. f_equal.
        rewrite Nat.Div0.add_mod_idemp_l. f_equal. lia.
      * cbn [with_frame_index _frame_index].
        apply Nat.mod_upper_bound. discriminate.
    + apply lookup_ge_None in Hglyph. change (length frames) with 10%nat in *.
      lia.
Qed.

Lemma clear_index self : _frame_index (clear self) = _frame_index self.
Proof. unfold clear. now destruct (enabled self). Qed.

Lemma cursor_index self mode :
  _frame_index (cursor platform self mode) = _frame_index self.
Proof.
  unfold cursor. destruct (isatty platform); [|reflexivity].
  now destruct (os_name platform).
Qed.

Lemma exit_index self :
  (_frame_index self < 10)%nat ->
  (_frame_index (snd (exit_ platform self)) < 10)%nat.
Proof.
  intros Hlt. unfold exit_. destruct (_stop_spinner self) as [[|]|];
    try exact Hlt.
  cbn [snd]. destruct (enabled _); cbn.
  - unfold enable_cursor. rewrite cursor_index, clear_index. cbn. lia.
  - lia.
Qed.

Lemma after_index self op :
  (_frame_index self < 10)%nat ->
  (_frame_index (after platform self op) < 10)%nat.
Proof.
  intros Hlt. destruct op as [name now|key status now| | |]; cbn [after].
  - exact Hlt.
  - unfold finalize. destruct (dict_get key (_envs self)); [|exact Hlt].
    match goal with
    | |- (_frame_index (snd (match _envs ?s with _ => _ end)) < _)%nat =>
        assert (Hs : (_frame_index s < 10)%nat)
          by (cbn; destruct (enabled self); cbn;
              rewrite ?clear_index; exact Hlt);
        destruct (_envs s)
    end.
    + now apply exit_index.
    + exact Hs.
  - unfold render_frame. destruct (enabled self); [|exact Hlt].
    unfold frame. destruct (frames !! _frame_index (clear self));
      cbn [snd write with_frame_index _frame_index].
    + change (length frames) with 10%nat.
      apply Nat.mod_upper_bound. discriminate.
    + now rewrite clear_index.
  - unfold enter, disable_cursor. destruct (enabled self); cbn;
      now rewrite ?cursor_index.
  - now apply exit_index.
Qed.

(** X21: whatever calls were made on a spinner since its creation, its
    frame index is one of the ten glyph positions, so that [frame]
    never raises [IndexError]. *)
Theorem frame_never_out_of_range (enabled : bool) (history : list Op) :
  let self := after_all platform (init enabled) history in
  (_frame_index self < 10)%nat /\
  exists text, fst (frame self) = Ok text.
Proof.
  cbn zeta.
  assert (Hlt : forall self,
             (_frame_index self < 10)%nat ->
             (_frame_index (after_all platform self history) < 10)%nat).
  { induction history as [|op history IH]; intros self Hself; [exact Hself|].
    cbn. apply IH. now apply after_index. }
  specialize (Hlt (init enabled) ltac:(cbn; lia)).
  split; [exact Hlt|]. unfold frame.
  destruct (frames !! _) as [glyph|] eqn:Hglyph; [cbn; eauto|].
  apply lookup_ge_None in Hglyph. change (length frames) with 10%nat in *.
  lia.
Qed.

(** X22: on a disabled spinner rendering and clearing do nothing at all,
    while [finalize] of a running name still writes its summary line,
    and only that line. *)
Theorem disabled_spinner_only_prints_summaries (self : Spinner)
        (key status : list N) (now start_at : Z) :
  enabled self = false ->
  dict_get key (_envs self) = Some start_at ->
  render_frame self = (Ok tt, self) /\
  clear self = self /\
  stream (snd (finalize platform self key status now))
  = stream self
      ++ [status ++ lit " " ++ key ++ lit " in "
                 ++ td_human_readable platform (now - start_at)
                 ++ linesep platform].
Proof.
  intros Hen Hget. unfold render_frame, clear, finalize.
  rewrite Hen, Hget. split; [reflexivity|]. split; [reflexivity|].
  cbn. rewrite Hen. cbn.
  destruct (dict_del key (_envs self)); [|reflexivity].
  unfold exit_. cbn. destruct (_stop_spinner self) as [[|]|]; try reflexivity.
  cbn. now rewrite Hen.
Qed.

Lemma clear_if self : (if enabled self then clear self else self) = clear self.
Proof. unfold clear. now destruct (enabled self). Qed.

Lemma clear_stop self : _stop_spinner (clear self) = _stop_spinner self.
Proof. unfold clear. now destruct (enabled self). Qed.

(** X23: on a spinner that was never entered, finalizing the last
    running name raises [AttributeError], and only after the name has
    been removed and its summary line written. *)
Theorem finalize_last_name_never_entered (self : Spinner)
        (key status : list N) (now start_at : Z) :
  _stop_spinner self = None ->
  dict_get key (_envs self) = Some start_at ->
  dict_del key (_envs self) = [] ->
  fst (finalize platform self key status now)
    = Raise (AttributeError "_stop_spinner") /\
  _envs (snd (finalize platform self key status now)) = [] /\
  last (stream (snd (finalize platform self key status now)))
    = Some (status ++ lit " " ++ key ++ lit " in "
                   ++ td_human_readable platform (now - start_at)
                   ++ linesep platform).
Proof.
  intros Hstop Hget Hdel. unfold finalize. rewrite Hget. cbv zeta.
  rewrite clear_if.
  set (line := status ++ lit " " ++ key ++ lit " in "
                      ++ td_human_readable platform (now - start_at)
                      ++ linesep platform).
  set (s1 := write (clear (with_envs self (dict_del key (_envs self)))) line).
  assert (He : _envs s1 = []).
  { unfold s1. cbn [write _envs]. now rewrite clear_envs. }
  assert (Hs : _stop_spinner s1 = None).
  { unfold s1. cbn [write _stop_spinner]. now rewrite clear_stop. }
  rewrite He. unfold exit_. rewrite Hs. cbn [fst snd].
  split; [reflexivity|]. split; [exact He|].
  unfold s1. cbn [write stream]. apply last_snoc.
Qed.

(** X24: adding a name and finalizing it brings the running set back to
    what it was: the other names, their order and their start times are
    untouched. *)
Theorem add_then_finalize_restores (self : Spinner)
        (name status : list N) (t now : Z) :
  dict_get name (_envs self) = None ->
  _envs (snd (finalize platform (add self name t) name status now))
  = _envs self.
Proof.
  intros Hget.
  change (snd (finalize platform (add self name t) name status now))
    with (after platform (add self name t) (Finalize name status now)).
  rewrite after_envs. unfold add. cbn.
  rewrite dict_get_set_any. destruct (decide (name = name)); [|congruence].
  now apply dict_del_set_fresh.
Qed.

(** X25: adding a name that is already running keeps the names in the
    order they have in the frame and restarts the clock of that name; a
    new name goes to the end. *)
Theorem add_keeps_order (self : Spinner) (name : list N) (now : Z) :
  dict_keys (_envs (add self name now))
  = (if decide (name ∈ dict_keys (_envs self))
     then dict_keys (_envs self)
     else dict_keys (_envs self) ++ [name]) /\
  dict_get name (_envs (add self name now)) = Some now.
Proof.
  unfold add. cbn. split; [apply dict_keys_set|].
  rewrite dict_get_set_any. now destruct (decide (name = name)).
Qed.

(** X26: after any calls on a fresh spinner, [finalize] of a running
    name takes exactly that name out of the running set: the names left
    are the former ones without it, in the same order. *)
Theorem finalize_removes_only_that_name (enabled : bool) (history : list Op)
        (key status : list N) (now : Z) :
  let self := after_all platform (init enabled) history in
  is_Some (dict_get key (_envs self)) ->
  dict_keys (_envs (snd (finalize platform self key status now)))
  = filter (fun k => k <> key) (dict_keys (_envs self)).
Proof.
  cbn zeta. intros [start_at Hget].
  set (self := after_all platform (init enabled) history) in *.
  destruct (after_all_running platform history (init enabled) key)
    as [Hnodup _]; [apply NoDup_nil_2|]. fold self in Hnodup.
  change (snd (finalize platform self key status now))
    with (after platform self (Finalize key status now)).
  rewrite after_envs, Hget. now apply dict_keys_del.
Qed.

(** X27: leaving a spinner twice is the same as leaving it once: the
    second [__exit__] writes nothing and changes nothing. *)
Theorem exit_twice_is_exit_once (self : Spinner) :
  _stop_spinner self <> None ->
  exit_ platform (snd (exit_ platform self))
  = (Ok tt, snd (exit_ platform self)).
Proof.
  intros Hstop. unfold exit_ at 2 3.
  destruct (_stop_spinner self) as [[|]|] eqn:Hs; [| |now contradiction Hstop].
  - cbn. unfold exit_. now rewrite Hs.
  - cbn [snd]. unfold exit_.
    assert (Hset : forall s, _stop_spinner
                               (if enabled s
                                then enable_cursor platform (clear s)
                                else s) = _stop_spinner s).
    { intros s. destruct (enabled s); [|reflexivity].
      unfold enable_cursor, cursor, clear.
      destruct (isatty platform), (os_name platform), (enabled s);
        reflexivity. }
    rewrite Hset. reflexivity.
Qed.

End SpinnerMore.

(* ================================================================== *)
(** * The further statements on examples *)
(* ================================================================== *)

(** The first batch of the chain: [x] and [w] are ready, [y] and [z]
    stay. *)
Lemma collect_batch_splits_order_witness :
  ["x"; "w"] ++ ["y"; "z"] ≡ₚ chain_to_run /\
  Forall (fun env => Common.is_ready chain_todo ∅ env = true) ["x"; "w"] /\
  Forall (fun env => Common.is_ready chain_todo ∅ env = false) ["y"; "z"].
Proof.
  apply (collect_batch_splits_order chain_todo ∅ chain_to_run).
  vm_compute. reflexivity.
Defined.

(** An order that names [v], which the chain does not have. *)
Lemma collect_batch_missing_entry_witness :
  ["x"; "v"] <> [] /\
  forall ready_to_run new_order,
    Common.collect_batch chain_todo ∅ ["x"; "v"] ready_to_run new_order
      = Raise KeyError /\
    Common.resume chain_todo ∅ ["x"; "v"]
      = (Common.Raised KeyError, Common.Exhausted).
Proof.
  apply (collect_batch_missing_entry chain_todo ∅ ["x"; "v"]).
  apply Exists_cons_tl, Exists_cons_hd. vm_compute. reflexivity.
Defined.

(** [y] is ready once [x] is completed, and still is when [w] is too. *)
Lemma is_ready_monotone_witness :
  Common.is_ready chain_todo {[ "x"; "w" ]} "y" = true.
Proof.
  apply (is_ready_monotone chain_todo {[ "x" ]} {[ "x"; "w" ]} "y").
  - intros env Henv. apply elem_of_union. now left.
  - vm_compute. reflexivity.
Defined.

Lemma chain_before_y_reachable :
  Common.reachable Common.stable_topological_sort chain_state 0
                   chain_to_run None chain_before_y.
Proof.
  apply (run_reachable _ _ _ _ _ chain_schedule
                       (Common.start chain_to_run None)).
  - apply Common.reachable_start.
  - vm_compute. reflexivity.
Qed.

Lemma completed_is_names_of_results_witness :
  Common.completed chain_before_y
  = list_to_set (Common.name <$> Common.results chain_before_y).
Proof.
  apply (completed_is_names_of_results
           Common.stable_topological_sort chain_state 0 chain_to_run None).
  exact chain_before_y_reachable.
Defined.

Lemma stopped_is_final_witness :
  Common.future_to_env empty_run_stopped = [] /\
  forall a d',
    Common.step Common.stable_topological_sort chain_state 0
                empty_run_stopped a = Some d' ->
    a = Common.SetInterrupt.
Proof.
  apply (stopped_is_final Common.stable_topological_sort chain_state 0
                          [] (Some 1%nat)).
  - apply (run_reachable _ _ _ _ _
             [Common.Drive; Common.Drive; Common.Drive]
             (Common.start [] (Some 1%nat))).
    + apply Common.reachable_start.
    + vm_compute. reflexivity.
  - vm_compute. reflexivity.
Defined.

Lemma results_handled_in_order_witness :
  Session.handled (Common.events chain_before_y)
    ++ Session.in_hand (Common.phase chain_before_y)
  = Common.results chain_before_y.
Proof.
  apply (results_handled_in_order
           Common.stable_topological_sort chain_state 0 chain_to_run None).
  - exact chain_before_y_reachable.
  - intros e. vm_compute. discriminate.
Defined.

(** [a, b] is served by the last [a] and by [b]; [c] has no result. *)
Lemma ordered_results_follow_to_run_list_witness :
  (forall ordered,
      Session.ordered_results ["a"; "b"] results_b_a_a = Ok ordered ->
      Common.name <$> ordered = ["a"; "b"]) /\
  Session.ordered_results ["a"; "c"] results_b_a_a = Raise KeyError.
Proof.
  split.
  - intros ordered Hord.
    exact (proj1 (proj1 (ordered_results_follow_to_run_list
                           ["a"; "b"] results_b_a_a) ordered Hord)).
  - apply (proj1 (proj2 (ordered_results_follow_to_run_list
                           ["a"; "c"] results_b_a_a))).
    apply Exists_cons_tl, Exists_cons_hd. vm_compute.
    intros H. repeat (apply elem_of_cons in H as [H|H]; [discriminate|]).
    now apply elem_of_nil in H.
Defined.

Lemma assert_success_raises_iff_nonzero_witness :
  Api.bool_ unset_outcome = false /\
  fst (OutcomeChecks.assert_success unset_outcome) = OutcomeChecks.Passed.
Proof.
  apply (proj1 (proj2 (proj2 (assert_success_raises_iff_nonzero
                                unset_outcome)))).
  reflexivity.
Defined.





(** A live child whose stdin was closed after the spawn. *)
Lemma interrupt_live_child_closed_stdin_witness :
  fst (LocalSubProcess.interrupt
         (instance_of (LocalSubProcess.close_stdin
                         (LocalSubProcess.with_stdin
                            (child None false None)
                            (LocalSubProcess.OpenPipe "")))))
    = LocalSubProcess.Escaped ValueError.
Proof.
  refine (proj1 (interrupt_live_child_closed_stdin
                   (instance_of (LocalSubProcess.close_stdin
                                   (LocalSubProcess.with_stdin
                                      (child None false None)
                                      (LocalSubProcess.OpenPipe ""))))
                   (LocalSubProcess.close_stdin
                      (LocalSubProcess.with_stdin
                         (child None false None)
                         (LocalSubProcess.OpenPipe "")))
                   _ _ _ _)); reflexivity.
Defined.

Lemma spawn_failure_then_keyboard_interrupt_witness :
  exists outcome,
    LocalSubProcess.call 1 (fun _ _ => LocalSubProcess.OSError 2)
                         (fun _ _ => None) missing_request false 0 1
                         [] true
      = LocalSubProcess.ToxKeyboardInterrupt outcome /\
    Api.exit_code outcome = Some 0 /\
    Api.bool_ outcome = true /\
    Api.out outcome = "" /\ Api.err outcome = "".
Proof.
  apply (spawn_failure_then_keyboard_interrupt
           1 (fun _ _ => LocalSubProcess.OSError 2)
           (fun _ _ => None) missing_request false 0 1 []
           "/usr/bin" "sys-must-be-missing" [] 2).
  - vm_compute. reflexivity.
  - reflexivity.
  - reflexivity.
Defined.

Lemma call_without_PATH_raises_witness :
  exists e,
    LocalSubProcess.call 1 (fun _ _ => LocalSubProcess.OSError 2)
                         (fun _ _ => None) pathless_request false 0 1
                         [] false
      = LocalSubProcess.Propagated e /\
    is_LookupError e = true.
Proof.
  apply (call_without_PATH_raises
           1 (fun _ _ => LocalSubProcess.OSError 2)
           (fun _ _ => None) pathless_request false 0 1 [] false).
  vm_compute. reflexivity.
Defined.

(** Twenty-three frames from the seventh glyph end on the first. *)
Lemma frame_n_rotates_witness :
  Render.frame_n 23 (Spinner.with_frame_index spinner_a_b 7)
  = (Ok tt, Spinner.with_frame_index
              (Spinner.with_frame_index spinner_a_b 7) ((7 + 23) mod 10)).
Proof.
  apply (frame_n_rotates 23 (Spinner.with_frame_index spinner_a_b 7)).
  cbn. lia.
Defined.

Lemma disabled_spinner_only_prints_summaries_witness :
  Spinner.render_frame spinner_quiet_a = (Ok tt, spinner_quiet_a) /\
  Spinner.clear spinner_quiet_a = spinner_quiet_a /\
  Spinner.stream
    (snd (Spinner.finalize posix_tty spinner_quiet_a (Spinner.lit "a")
                           (Spinner.lit "OK") 5))
  = Spinner.stream spinner_quiet_a
      ++ [Spinner.lit "OK" ++ Spinner.lit " " ++ Spinner.lit "a"
            ++ Spinner.lit " in "
            ++ Spinner.td_human_readable posix_tty (5 - 0)
            ++ Spinner.linesep posix_tty].
Proof.
  apply (disabled_spinner_only_prints_summaries
           posix_tty spinner_quiet_a (Spinner.lit "a") (Spinner.lit "OK")
           5 0); reflexivity.
Defined.

Lemma finalize_last_name_never_entered_witness :
  fst (Spinner.finalize posix_tty spinner_quiet_a (Spinner.lit "a")
                        (Spinner.lit "OK") 5)
    = Raise (AttributeError "_stop_spinner") /\
  Spinner._envs
    (snd (Spinner.finalize posix_tty spinner_quiet_a (Spinner.lit "a")
                           (Spinner.lit "OK") 5)) = [].
Proof.
  destruct (finalize_last_name_never_entered
              posix_tty spinner_quiet_a (Spinner.lit "a") (Spinner.lit "OK")
              5 0 eq_refl eq_refl eq_refl) as (Hraise & Henvs & _).
  split; [exact Hraise | exact Henvs].
Defined.

Lemma add_then_finalize_restores_witness :
  Spinner._envs
    (snd (Spinner.finalize posix_tty
            (Spinner.add spinner_a_b (Spinner.lit "c") 2)
            (Spinner.lit "c") (Spinner.lit "OK") 5))
  = Spinner._envs spinner_a_b.
Proof.
  apply (add_then_finalize_restores posix_tty spinner_a_b).
  reflexivity.
Defined.

Lemma finalize_removes_only_that_name_witness :
  dict_keys
    (Spinner._envs
       (snd (Spinner.finalize posix_tty
               (Spinner.after_all posix_tty (Spinner.init true)
                  [Spinner.Enter; Spinner.Add (Spinner.lit "a") 0;
                   Spinner.Add (Spinner.lit "b") 1;
                   Spinner.Add (Spinner.lit "c") 2])
               (Spinner.lit "b") (Spinner.lit "OK") 5)))
  = filter (fun k => k <> Spinner.lit "b")
           (dict_keys
              (Spinner._envs
                 (Spinner.after_all posix_tty (Spinner.init true)
                    [Spinner.Enter; Spinner.Add (Spinner.lit "a") 0;
                     Spinner.Add (Spinner.lit "b") 1;
                     Spinner.Add (Spinner.lit "c") 2]))).
Proof.
  apply (finalize_removes_only_that_name
           posix_tty true
           [Spinner.Enter; Spinner.Add (Spinner.lit "a") 0;
            Spinner.Add (Spinner.lit "b") 1;
            Spinner.Add (Spinner.lit "c") 2]
           (Spinner.lit "b") (Spinner.lit "OK") 5).
  vm_compute. eauto.
Defined.

Lemma exit_twice_is_exit_once_witness :
  Spinner.exit_ posix_tty
    (snd (Spinner.exit_ posix_tty (Spinner.enter posix_tty spinner_a_b)))
  = (Ok tt,
     snd (Spinner.exit_ posix_tty (Spinner.enter posix_tty spinner_a_b))).
Proof.
  apply (exit_twice_is_exit_once
           posix_tty (Spinner.enter posix_tty spinner_a_b)).
  discriminate.
Defined.
